(** * Shallow embedding of the two Pyro experiment scripts

    - [2019-02-censored/modeling_censored_time_to_event_data_with_pyro.py]
    - [2020-03-forecasting/solar.py]

    Tensor entries are idealised as real numbers ([R]); one-dimensional
    tensors are lists, two-dimensional tensors are lists of rows.  Python
    integers are [Z], tensor sizes are [nat].  Calls into the probabilistic
    programming library are either written out in closed form over [R]
    (log-densities, constraint transforms) or taken as arguments, together
    with the part of their documented contract that is used. *)

From Stdlib Require Import Reals Lra Lia ZArith QArith Qround.
From stdpp Require Import gmap strings list fin_maps pretty.

Set Default Proof Using "Type".

(** ** Python exceptions that the scripts can raise *)

Inductive exn :=
  | AssertionError
  | IndexError
  | KeyError
  | AttributeError
  | ValueError
  | RuntimeError.

(** A computation that either raises or returns. *)
Definition py (A : Type) : Type := exn + A.

Definition raise {A} (e : exn) : py A := inl e.

#[global] Instance py_ret : MRet py := λ A a, inr a.
#[global] Instance py_bind : MBind py := λ A B k m,
  match m with inl e => inl e | inr a => k a end.
#[global] Instance py_fmap : FMap py := λ A B f m,
  match m with inl e => inl e | inr a => inr (f a) end.

Definition py_assert (b : bool) : py unit :=
  if b then mret tt else raise AssertionError.

Definition of_option {A} (e : exn) (o : option A) : py A :=
  match o with Some a => mret a | None => raise e end.

(** ** One-dimensional real tensors *)

#[global] Instance R_eq_dec : EqDecision R := Req_dec_T.
#[global] Instance R_inhabited : Inhabited R := populate 0%R.

Definition Rsum (l : list R) : R := foldr Rplus 0%R l.

(** [t[i]] on a one-dimensional tensor; out of range raises. *)
Definition getitem (t : list R) (i : nat) : py R := of_option IndexError (t !! i).

(** Binary elementwise operation with torch broadcasting, restricted to
    one dimension: equal sizes zip, a size-one operand is expanded, every
    other pair of sizes is rejected. *)
Definition broadcast2 {A B C} (f : A → B → C) (a : list A) (b : list B) : py (list C) :=
  if decide (length a = length b) then mret (zip_with f a b)
  else match a, b with
       | [a0], _ => mret (map (f a0) b)
       | _, [b0] => mret (map (λ v, f v b0) a)
       | _, _ => raise RuntimeError
       end.

(** ** The censored time-to-event script *)

Module Censored.
Local Open Scope R_scope.

(** Module-level constants of the script. *)
Definition n : nat := 500.
Definition a : R := 2.
Definition b : R := 4.
Definition c : R := 8.

(** [torch.nn.functional.softplus]. *)
Definition softplus (v : R) : R := ln (1 + exp v).

(** [link = softplus(a * x + b)], the mean of the exponential from which
    [y] is drawn; [x] and [y] are the two random draws of the script. *)
Definition data_link (x : list R) : list R := map (λ xi, softplus (a * xi + b)) x.

(** [(y > c).float()]. *)
Definition gt_float (bound : R) (v : R) : R := if Rlt_dec bound v then 1 else 0.

(** [y.clamp(max=c)]. *)
Definition clamp_max (bound : R) (v : R) : R := Rmin v bound.

(** [truncation_label = (y > c).float()] for the sampled [y]. *)
Definition truncation_label (y : list R) : list R := map (gt_float c) y.

(** [y_obs = y.clamp(max=c)]. *)
Definition y_obs (y : list R) : list R := map (clamp_max c) y.

(** *** Closed forms of the library distributions used by the models *)

(** [dist.Normal(loc, scale).log_prob(v)]. *)
Definition Normal_log_prob (loc scale v : R) : R :=
  - ((v - loc) ^ 2) / (2 * scale ^ 2) - ln scale - ln (sqrt (2 * PI)).

(** [dist.Exponential(rate).log_prob(v)]. *)
Definition Exponential_log_prob (rate v : R) : R := ln rate - rate * v.

(** [dist.Exponential(rate).cdf(v)]. *)
Definition Exponential_cdf (rate v : R) : R := 1 - exp (- rate * v).

(** [dist.Bernoulli(probs).log_prob(v)]. *)
Definition Bernoulli_log_prob (probs v : R) : R :=
  v * ln probs + (1 - v) * ln (1 - probs).

(** *** Execution traces

    Running a model records one entry per [pyro.sample] statement: the
    site name, the summed log-probability of the site and whether the
    site was observed. *)

Record site := Site {
  site_name : string;
  log_prob_sum : R;
  is_observed : bool
}.

Abbreviation trace := (list site).

(** [pyro.sample(name, d)] evaluated at the latent value held by the sampler. *)
Definition sample_latent (name : string) (lp : R) (tr : trace) : trace :=
  tr ++ [Site name lp false].

(** [pyro.sample(name, d, obs=v)]. *)
Definition sample_obs (name : string) (lp : R) (tr : trace) : trace :=
  tr ++ [Site name lp true].

(** Log-density contributed by the observed sites of a trace. *)
Definition observed_log_density (tr : trace) : R :=
  Rsum (map log_prob_sum (filter (λ s, is_observed s = true) tr)).

(** Entry of a log-probability tensor under [poutine.mask]: kept where the
    mask holds, zero elsewhere. *)
Definition mask_fill (m : bool) (lp : R) : R := if m then lp else 0.

(** [softplus(a_model * x + b_model)] with scalar [a_model], [b_model]. *)
Definition link_of (a_model b_model : R) (x : list R) : list R :=
  map (λ xi, softplus (a_model * xi + b_model)) x.

(** *** First model: one sample statement per data point *)

Fixpoint model_loop (link y truncation_label : list R) (idx : list nat)
    (tr : trace) : py trace :=
  match idx with
  | [] => mret tr
  | i :: rest =>
      link_i ← getitem link i;
      let rate := 1 / link_i in
      label_i ← getitem truncation_label i;
      if decide (label_i = 0) then
        y_i ← getitem y i;
        model_loop link y truncation_label rest
          (sample_obs ("obs_" +:+ pretty i) (Exponential_log_prob rate y_i) tr)
      else
        y_i ← getitem y i;
        let truncation_prob := 1 - Exponential_cdf rate y_i in
        model_loop link y truncation_label rest
          (sample_obs ("truncation_label_" +:+ pretty i)
             (Bernoulli_log_prob truncation_prob label_i) tr)
  end.

Definition model_sequential (a_model b_model : R) (x y truncation_label : list R)
    : py trace :=
  let tr := sample_latent "a_model" (Normal_log_prob 0 10 a_model) [] in
  let tr := sample_latent "b_model" (Normal_log_prob 0 10 b_model) tr in
  let link := link_of a_model b_model x in
  model_loop link y truncation_label (seq 0 (length x)) tr.

(** *** Second model: [pyro.plate] and [poutine.mask] *)

Definition model_vectorized (a_model b_model : R) (x y truncation_label : list R)
    : py trace :=
  let tr := sample_latent "a_model" (Normal_log_prob 0 10 a_model) [] in
  let tr := sample_latent "b_model" (Normal_log_prob 0 10 b_model) tr in
  let link := link_of a_model b_model x in
  let rate := map (λ l, 1 / l) link in
  (* with pyro.poutine.mask(mask = (truncation_label == 0)) *)
  let mask0 := map (λ l, bool_decide (l = 0)) truncation_label in
  lp_obs ← broadcast2 Exponential_log_prob rate y;
  masked_obs ← broadcast2 mask_fill mask0 lp_obs;
  let tr := sample_obs "obs" (Rsum masked_obs) tr in
  (* with pyro.poutine.mask(mask = (truncation_label == 1)) *)
  let mask1 := map (λ l, bool_decide (l = 1)) truncation_label in
  cdf ← broadcast2 Exponential_cdf rate y;
  let truncation_prob := map (λ p, 1 - p) cdf in
  let lp_trunc := map (λ p, Bernoulli_log_prob p 1) truncation_prob in
  masked_trunc ← broadcast2 mask_fill mask1 lp_trunc;
  mret (sample_obs "truncation_label" (Rsum masked_trunc) tr).

(** *** The observation model in closed form

    Uncensored points contribute the exponential log-density, censored
    points the log of the survival probability. *)

Definition rate_at (a_model b_model : R) (x : list R) (i : nat) : R :=
  1 / softplus (a_model * nth i x 0 + b_model).

Definition censored_log_density (a_model b_model : R) (x y truncation_label : list R) : R :=
  Rsum (map (λ i, Exponential_log_prob (rate_at a_model b_model x i) (nth i y 0))
          (filter (λ i, nth i truncation_label 0 = 0) (seq 0 (length x))))
  + Rsum (map (λ i, ln (1 - Exponential_cdf (rate_at a_model b_model x i) (nth i y 0)))
          (filter (λ i, nth i truncation_label 0 = 1) (seq 0 (length x)))).

End Censored.

(** ** The forecasting script *)

Module Solar.
Local Open Scope R_scope.

Definition root_two : R := sqrt 2.

(** *** Tensors and library objects that the script builds *)

Inductive tensor :=
  | Scalar (v : R)
  | Vector (v : list R)
  | Matrix (m : list (list R)).

Definition tmap (f : R → R) (t : tensor) : tensor :=
  match t with
  | Scalar v => Scalar (f v)
  | Vector v => Vector (map f v)
  | Matrix m => Matrix (map (map f) m)
  end.

(** Every entry of a tensor satisfies [P]. *)
Definition all_entries (P : R → Prop) (t : tensor) : Prop :=
  match t with
  | Scalar v => P v
  | Vector v => Forall P v
  | Matrix m => Forall (Forall P) m
  end.

Definition zeros (k : nat) : tensor := Vector (replicate k 0).
Definition ones (k : nat) : tensor := Vector (replicate k 1).

(** [torch.distributions.constraints]. *)
Inductive constraint :=
  | real
  | positive
  | interval (lower upper : R).

Definition sigmoid (u : R) : R := 1 / (1 + exp (- u)).
Definition logit (p : R) : R := ln p - ln (1 - p).

(** [transform_to(constraint)]: the bijection from unconstrained space that
    the library registers for each constraint (identity, exp, sigmoid
    followed by an affine map). *)
Definition transform_to (c : constraint) (u : R) : R :=
  match c with
  | real => u
  | positive => exp u
  | interval lower upper => lower + (upper - lower) * sigmoid u
  end.

Definition transform_inv (c : constraint) (v : R) : R :=
  match c with
  | real => v
  | positive => ln v
  | interval lower upper => logit ((v - lower) / (upper - lower))
  end.

(** A [PyroParam] attribute of a [PyroModule]: the module stores the
    unconstrained tensor, which is what the optimizer updates, and every
    read of the attribute applies the constraint's transform. *)
Record PyroParam := {
  constraint_of : constraint;
  unconstrained : tensor
}.

Definition mkPyroParam (init : tensor) (c : constraint) : PyroParam :=
  {| constraint_of := c; unconstrained := tmap (transform_inv c) init |}.

Definition value (p : PyroParam) : tensor :=
  tmap (transform_to (constraint_of p)) (unconstrained p).

(** Distribution objects, recorded as the constructor calls that built
    them.  The scale of [Normal] is optional because [get_dist] passes its
    [obs_scale] argument, whose default is [None], straight to the
    constructor. *)
Inductive distribution :=
  | Normal (loc : tensor) (scale : option tensor)
  | StudentT (df loc scale : tensor)
  | Stable (stability skew scale : tensor)
  | Independent (base : distribution) (reinterpreted_batch_ndims : nat).

Record LinearHMM := {
  initial_dist : distribution;
  transition_matrix : tensor;
  transition_dist : distribution;
  observation_matrix : tensor;
  observation_dist : distribution;
  duration : option nat
}.

(** The constructors belong to the library and can reject their arguments
    (a missing scale, shapes that do not broadcast, values outside the
    support, a duration that does not match the time dimension, ...).
    Which arguments they reject is the library's business: the argument
    checks are taken as they come, one per constructor, each either
    passing or raising. *)
Record library := {
  Normal_check : tensor → option tensor → py unit;
  StudentT_check : tensor → tensor → tensor → py unit;
  Stable_check : tensor → tensor → tensor → py unit;
  to_event_check : distribution → nat → py unit;
  LinearHMM_check : LinearHMM → py unit
}.

(** [Normal(loc, scale)], [StudentT(df, loc, scale)],
    [Stable(stability, skew, scale=scale)], [d.to_event(k)] and
    [LinearHMM(...)]: the check, then the object. *)
Definition new_Normal (lib : library) (loc : tensor) (scale : option tensor)
    : py distribution :=
  _ ← Normal_check lib loc scale; mret (Normal loc scale).

Definition new_StudentT (lib : library) (df loc scale : tensor) : py distribution :=
  _ ← StudentT_check lib df loc scale; mret (StudentT df loc scale).

Definition new_Stable (lib : library) (stability skew scale : tensor) : py distribution :=
  _ ← Stable_check lib stability skew scale; mret (Stable stability skew scale).

Definition to_event (lib : library) (d : distribution) (k : nat) : py distribution :=
  _ ← to_event_check lib d k; mret (Independent d k).

Definition new_LinearHMM (lib : library) (h : LinearHMM) : py LinearHMM :=
  _ ← LinearHMM_check lib h; mret h.

(** A library instance with the two rejections that the callers of
    [get_dist] can meet: [Normal] raises ValueError when its scale is
    [None], and [LinearHMM] raises ValueError when the observation noise
    has one row of scales per time step and the duration is a different
    number.  Every other call passes in this instance. *)
Definition checking_library : library := {|
  Normal_check := λ _ scale,
    match scale with None => raise ValueError | Some _ => mret tt end;
  StudentT_check := λ _ _ _, mret tt;
  Stable_check := λ _ _ _, mret tt;
  to_event_check := λ _ _, mret tt;
  LinearHMM_check := λ h,
    match observation_dist h, duration h with
    | Independent (Normal _ (Some (Matrix rows))) _, Some d =>
        if bool_decide (length rows = d ∨ length rows = 1%nat) then mret tt
        else raise ValueError
    | _, _ => mret tt
    end
|}.

(** Stability arguments of the [Stable] distributions inside a distribution. *)
Fixpoint stabilities (d : distribution) : list tensor :=
  match d with
  | Stable stability _ _ => [stability]
  | Independent base _ => stabilities base
  | _ => []
  end.

Definition hmm_stabilities (h : LinearHMM) : list tensor :=
  stabilities (initial_dist h) ++ stabilities (transition_dist h)
  ++ stabilities (observation_dist h).

Definition noise_flags : list string := ["gaussian"; "stable"; "student"; "skew"].

(** *** class StableLinearHMM *)

Module StableLinearHMM.

Record t := {
  trans_noise : string;
  obs_noise : string;
  state_dim : nat;
  obs_dim : nat;
  obs_noise_scale : PyroParam;
  trans_noise_scale : PyroParam;
  trans_matrix : PyroParam;
  obs_matrix : PyroParam;
  (* attributes that exist only for some noise flags *)
  trans_stability : option PyroParam;
  trans_skew : option PyroParam;
  trans_nu : option PyroParam;
  obs_stability : option PyroParam;
  obs_skew : option PyroParam;
  obs_nu : option PyroParam
}.

(** [randn_trans] and [randn_obs] are the draws of [torch.randn] that
    initialise the two matrices. *)
Definition __init__ (obs_dim : nat) (trans_noise obs_noise : string) (state_dim : nat)
    (randn_trans randn_obs : list (list R)) : py t :=
  _ ← py_assert (bool_decide (trans_noise ∈ noise_flags));
  _ ← py_assert (bool_decide (obs_noise ∈ noise_flags));
  mret {|
    trans_noise := trans_noise;
    obs_noise := obs_noise;
    state_dim := state_dim;
    obs_dim := obs_dim;
    obs_noise_scale := mkPyroParam (tmap (Rmult 0.2) (ones obs_dim)) positive;
    trans_noise_scale := mkPyroParam (tmap (Rmult 0.2) (ones state_dim)) positive;
    trans_matrix := mkPyroParam (tmap (Rmult 0.3) (Matrix randn_trans)) real;
    obs_matrix := mkPyroParam (tmap (Rmult 0.3) (Matrix randn_obs)) real;
    trans_stability :=
      if bool_decide (trans_noise ∈ ["stable"; "skew"])
      then Some (mkPyroParam (Scalar 1.95) (interval 1.01 1.99)) else None;
    trans_skew :=
      if bool_decide (trans_noise ∈ ["stable"; "skew"])
      then if bool_decide (trans_noise = "skew")
           then Some (mkPyroParam (Scalar 0.0) (interval (-0.99) 0.99)) else None
      else None;
    trans_nu :=
      if bool_decide (trans_noise ∈ ["stable"; "skew"]) then None
      else if bool_decide (trans_noise = "student")
           then Some (mkPyroParam (Scalar 5.0) (interval 1.01 30.0)) else None;
    obs_stability :=
      if bool_decide (obs_noise ∈ ["stable"; "skew"])
      then Some (mkPyroParam (Scalar 1.95) (interval 1.01 1.99)) else None;
    obs_skew :=
      if bool_decide (obs_noise ∈ ["stable"; "skew"])
      then if bool_decide (obs_noise = "skew")
           then Some (mkPyroParam (Scalar 0.0) (interval (-0.99) 0.99)) else None
      else None;
    obs_nu :=
      if bool_decide (obs_noise ∈ ["stable"; "skew"]) then None
      else if bool_decide (obs_noise = "student")
           then Some (mkPyroParam (Scalar 5.0) (interval 1.01 30.0)) else None
  |}.

(** Reading an attribute that [__init__] did not set raises. *)
Definition getattr (a : option PyroParam) : py tensor :=
  value <$> of_option AttributeError a.

Definition _get_init_dist (lib : library) (self : t) : py distribution :=
  d ← new_Normal lib (zeros (state_dim self)) (Some (ones (state_dim self)));
  to_event lib d 1.

Definition _get_obs_dist (lib : library) (self : t) (obs_scale : option tensor)
    : py distribution :=
  if bool_decide (obs_noise self = "stable") then
    stability ← getattr (obs_stability self);
    d ← new_Stable lib stability (zeros (obs_dim self))
          (tmap (λ v, v / root_two) (value (obs_noise_scale self)));
    to_event lib d 1
  else if bool_decide (obs_noise self = "skew") then
    stability ← getattr (obs_stability self);
    skew ← getattr (obs_skew self);
    d ← new_Stable lib stability skew
          (tmap (λ v, v / root_two) (value (obs_noise_scale self)));
    to_event lib d 1
  else if bool_decide (obs_noise self = "student") then
    nu ← getattr (obs_nu self);
    d ← new_StudentT lib nu (zeros (obs_dim self)) (value (obs_noise_scale self));
    to_event lib d 1
  else
    d ← new_Normal lib (zeros (obs_dim self)) obs_scale;
    to_event lib d 1.

Definition _get_trans_dist (lib : library) (self : t) : py distribution :=
  if bool_decide (trans_noise self = "stable") then
    stability ← getattr (trans_stability self);
    d ← new_Stable lib stability (zeros (state_dim self))
          (tmap (λ v, v / root_two) (value (trans_noise_scale self)));
    to_event lib d 1
  else if bool_decide (trans_noise self = "skew") then
    stability ← getattr (trans_stability self);
    skew ← getattr (trans_skew self);
    d ← new_Stable lib stability skew
          (tmap (λ v, v / root_two) (value (trans_noise_scale self)));
    to_event lib d 1
  else if bool_decide (trans_noise self = "student") then
    nu ← getattr (trans_nu self);
    d ← new_StudentT lib nu (zeros (state_dim self)) (value (trans_noise_scale self));
    to_event lib d 1
  else
    d ← new_Normal lib (zeros (state_dim self)) (Some (value (trans_noise_scale self)));
    to_event lib d 1.

Definition get_dist (lib : library) (self : t) (duration : option nat)
    (obs_scale : option tensor) : py LinearHMM :=
  init ← _get_init_dist lib self;
  trans ← _get_trans_dist lib self;
  obs ← _get_obs_dist lib self obs_scale;
  new_LinearHMM lib {| initial_dist := init;
                       transition_matrix := value (trans_matrix self);
                       transition_dist := trans;
                       observation_matrix := value (obs_matrix self);
                       observation_dist := obs;
                       duration := duration |}.

(** One optimizer step: every unconstrained tensor is replaced by the
    update computed for it ([upd] is given the attribute name); flags,
    dimensions and constraints are untouched. *)
Definition step_param (upd : string → tensor → tensor) (name : string) (p : PyroParam)
    : PyroParam :=
  {| constraint_of := constraint_of p; unconstrained := upd name (unconstrained p) |}.

Definition optimizer_step (upd : string → tensor → tensor) (self : t) : t :=
  {| trans_noise := trans_noise self;
     obs_noise := obs_noise self;
     state_dim := state_dim self;
     obs_dim := obs_dim self;
     obs_noise_scale := step_param upd "obs_noise_scale" (obs_noise_scale self);
     trans_noise_scale := step_param upd "trans_noise_scale" (trans_noise_scale self);
     trans_matrix := step_param upd "trans_matrix" (trans_matrix self);
     obs_matrix := step_param upd "obs_matrix" (obs_matrix self);
     trans_stability := step_param upd "trans_stability" <$> trans_stability self;
     trans_skew := step_param upd "trans_skew" <$> trans_skew self;
     trans_nu := step_param upd "trans_nu" <$> trans_nu self;
     obs_stability := step_param upd "obs_stability" <$> obs_stability self;
     obs_skew := step_param upd "obs_skew" <$> obs_skew self;
     obs_nu := step_param upd "obs_nu" <$> obs_nu self |}.

(** Instances that exist at run time: constructed, then trained. *)
Inductive reachable : t → Prop :=
  | reachable_init obs_dim trans_noise obs_noise state_dim randn_trans randn_obs self :
      __init__ obs_dim trans_noise obs_noise state_dim randn_trans randn_obs = inr self →
      reachable self
  | reachable_step upd self :
      reachable self → reachable (optimizer_step upd self).

End StableLinearHMM.

(** *** Command-line arguments that the modelled code reads *)

Record args := {
  trans_noise : string;
  obs_noise : string;
  dataset : string;
  data_dir : string;
  train_window : Z;
  test_window : Z;
  num_windows : Z;
  state_dim : nat;
  seed : Z
}.

(** *** get_data *)

(** Python's [l[:k]]: a negative [k] counts from the end. *)
Definition slice_to {A} (k : Z) (l : list A) : list A :=
  if bool_decide (k < 0)%Z
  then take (Z.to_nat (Z.of_nat (length l) + k)) l
  else take (Z.to_nat k) l.

(** Python's [l[k:]]. *)
Definition slice_from {A} (k : Z) (l : list A) : list A :=
  if bool_decide (k < 0)%Z
  then drop (Z.to_nat (Z.of_nat (length l) + k)) l
  else drop (Z.to_nat k) l.

Definition ncols (d : list (list R)) : nat :=
  match d with [] => 0%nat | r :: _ => length r end.

Definition column (j : nat) (d : list (list R)) : list R := map (λ r, nth j r 0) d.

Definition mean (v : list R) : R := Rsum v / INR (length v).

(** [torch.std] of a vector (Bessel's correction is torch's default). *)
Definition std (v : list R) : R :=
  sqrt (Rsum (map (λ e, (e - mean v) ^ 2) v) / (INR (length v) - 1)).

(** [data.mean(0)] and [data.std(0)]: one entry per column. *)
Definition mean0 (d : list (list R)) : list R :=
  map (λ j, mean (column j d)) (seq 0 (ncols d)).

Definition std0 (d : list (list R)) : list R :=
  map (λ j, std (column j d)) (seq 0 (ncols d)).

(** [data -= row] and [data /= row], the row broadcast over the rows of [data]. *)
Definition sub_rows (d : list (list R)) (row : list R) : list (list R) :=
  map (λ r, zip_with Rminus r row) d.

Definition div_rows (d : list (list R)) (row : list R) : list (list R) :=
  map (λ r, zip_with Rdiv r row) d.

Definition to_keep (a : args) : Z := (train_window a + num_windows a * test_window a)%Z.

(** [raw] is the tensor returned by the data loader and
    [periodic_features] the library function of that name, which either
    returns the feature tensor or raises. *)
Definition get_data (periodic_features : nat → Z → Z → py (list (list R)))
    (a : args) (raw : list (list R)) : py (list (list R) * list (list R)) :=
  let data := raw in
  let to_keep := to_keep a in
  _ ← py_assert (bool_decide (to_keep ≤ Z.of_nat (length data))%Z);
  let data := slice_to to_keep data in
  let data_mean := mean0 data in
  let data := sub_rows data data_mean in
  let data_std := std0 data in
  let data := div_rows data data_std in
  short_covariates ← periodic_features (length data) (24 * 60)%Z 10%Z;
  let covariates := short_covariates in
  mret (data, covariates).

(** Columnwise standardisation, stated entry by entry. *)
Definition standardize (d : list (list R)) : list (list R) :=
  map (λ r, imap (λ j e, (e - mean (column j d)) / std (column j d)) r) d.

(** All rows have the same number of entries. *)
Definition rectangular (d : list (list R)) : Prop :=
  Forall (λ r, length r = ncols d) d.

(** *** class Model *)

Inductive reparam :=
  | SymmetricStableReparam
  | StableReparam
  | StudentTReparam.

Record LinearHMMReparam := {
  reparam_init : option reparam;
  reparam_trans : option reparam;
  reparam_obs : option reparam
}.

Definition arange (k : nat) : list nat := seq 0 k.

(** [Tensor.repeat(k)] on a one-dimensional tensor. *)
Definition repeat_tensor {A} (v : list A) (k : nat) : list A := concat (replicate k v).

(** [Tensor.index_select(0, index)]. *)
Fixpoint index_select {A} (v : list A) (index : list nat) : py (list A) :=
  match index with
  | [] => mret []
  | i :: rest =>
      row ← of_option IndexError (v !! i);
      rows ← index_select v rest;
      mret (row :: rows)
  end.

Module Model.

Record t := {
  obs_dim : nat;
  trans_noise : string;
  obs_noise : string;
  hmm : StableLinearHMM.t;
  long_feature_dim : nat;
  config : gmap string LinearHMMReparam
}.

Definition __init__ (trans_noise obs_noise : string) (state_dim obs_dim : nat)
    (randn_trans randn_obs : list (list R)) : py t :=
  hmm ← StableLinearHMM.__init__ obs_dim trans_noise obs_noise state_dim
          randn_trans randn_obs;
  let trans :=
    if bool_decide (trans_noise = "stable") then Some SymmetricStableReparam
    else if bool_decide (trans_noise = "skew") then Some StableReparam
    else if bool_decide (trans_noise = "student") then Some StudentTReparam
    else None in
  let obs :=
    if bool_decide (obs_noise = "stable") then Some SymmetricStableReparam
    else if bool_decide (obs_noise = "skew") then Some StableReparam
    else if bool_decide (obs_noise = "student") then Some StudentTReparam
    else None in
  mret {| obs_dim := obs_dim;
          trans_noise := trans_noise;
          obs_noise := obs_noise;
          hmm := hmm;
          long_feature_dim := 0;
          config := {[ "residual" :=
                       {| reparam_init := None; reparam_trans := trans; reparam_obs := obs |} ]} |}.

(** The hour index built in [model] from the covariates. *)
Definition hour (covariates : list (list R)) : list nat :=
  repeat_tensor (arange 24) (length covariates / 24).

(** The per-time-step observation scale of [model]: [obs_scale_param] is
    the current value of the learned parameter "obs_scale". *)
Definition model_obs_scale (obs_scale_param : list (list R)) (covariates : list (list R))
    : py (list (list R)) :=
  index_select obs_scale_param (hour covariates).

(** [covariates[:, :short_feature_dim]] of [model], with
    [feature_dim = covariates.size(-1)]. *)
Definition model_short_covariates (self : t) (covariates : list (list R))
    : list (list R) :=
  let feature_dim := Z.of_nat (ncols covariates) in
  let long_feature_dim := Z.of_nat (long_feature_dim self) in
  let short_feature_dim := (feature_dim - long_feature_dim)%Z in
  map (slice_to short_feature_dim) covariates.

End Model.

(** *** main *)

(** [np.mean] and [np.std] (population standard deviation). *)
Definition np_mean (v : list R) : R := Rsum v / INR (length v).

Definition np_std (v : list R) : R :=
  sqrt (np_mean (map (λ e, (e - np_mean v) ^ 2) v)).

(** One call of [log] with the format arguments of the evaluation loop. *)
Record log_line := LogLine {
  log_name : string;
  log_mean : R;
  log_std : R
}.

(** [[m[name] for m in metrics]]. *)
Fixpoint metric_values (name : string) (metrics : list (gmap string R)) : py (list R) :=
  match metrics with
  | [] => mret []
  | m :: rest =>
      v ← of_option KeyError (m !! name);
      vs ← metric_values name rest;
      mret (v :: vs)
  end.

(** The loop [for name in ["mae", "crps"]], threading the results
    dictionary and the log. *)
Fixpoint evaluation_loop (names : list string) (metrics : list (gmap string R))
    (results : gmap string R) (log : list log_line)
    : py (gmap string R * list log_line) :=
  match names with
  | [] => mret (results, log)
  | name :: rest =>
      values ← metric_values name metrics;
      let mean := np_mean values in
      let std := np_std values in
      let results := <[name := mean]> results in
      let results := <[name +:+ "_std" := std]> results in
      evaluation_loop rest metrics results (log ++ [LogLine name mean std])
  end.

Definition main_evaluation (metrics : list (gmap string R))
    : py (gmap string R * list log_line) :=
  evaluation_loop ["mae"; "crps"] metrics ∅ [].

(** What the last loop of [main] stores for a parameter: the number
    [value.item()] or the whole array. *)
Inductive reported :=
  | Item (v : R)
  | Array (value : tensor).

Definition flatten (value : tensor) : list R :=
  match value with
  | Scalar v => [v]
  | Vector v => v
  | Matrix m => concat m
  end.

(** [value.numel()] and, for a one-element tensor, [value.item()]. *)
Definition numel (value : tensor) : nat := length (flatten value).
Definition item (value : tensor) : R := hd 0 (flatten value).

(** The loop over [pyro.get_param_store().items()]: [store] lists the
    name and the current value of every parameter. *)
Fixpoint report_params (store : list (string * tensor)) (results : gmap string reported)
    : gmap string reported :=
  match store with
  | [] => results
  | (name, value) :: rest =>
      if bool_decide (numel value = 1%nat)
      then report_params rest (<[name := Item (item value)]> results)
      else if bool_decide (numel value < 10)%nat
           then report_params rest (<[name := Array value]> results)
           else report_params rest results
  end.

(** The results dictionary of [main] after both loops. *)
Definition main_results (metrics : list (gmap string R)) (store : list (string * tensor))
    : py (gmap string reported) :=
  r ← main_evaluation metrics;
  mret (report_params store (Item <$> r.1)).

(** [math.ceil(0.80 * k)], with the product taken exactly.  The double
    nearest to 0.80 exceeds it by the relative amount 2^-54, which is less
    than half a unit in the last place of any product with an integer below
    2^53: the rounded product is the integer itself when 5 divides [k] and
    stays strictly between the same two integers otherwise, so the ceiling
    of the double-precision product is the ceiling of the exact one. *)
Definition ceil_080 (k : Z) : Z := Qceiling (0.80 * inject_Z k)%Q.

Section Split.
(** The global random number generator of the library. *)
Context {generator : Type}.
(** [pyro.set_rng_seed(seed)] replaces the generator state. *)
Variable set_rng_seed : Z → generator.
(** Generator state left behind by [backtest]. *)
Variable backtest_rng : args → generator → generator.
(** The draw of [torch.randperm(k)] from a generator state. *)
Variable randperm_draw : generator → nat → list nat.

(** [torch.randperm] rejects a negative size. *)
Definition randperm (g : generator) (k : Z) : py (list nat) :=
  if bool_decide (k < 0)%Z then raise RuntimeError
  else mret (randperm_draw g (Z.to_nat k)).

(** The part of [main] that decides [index_test] and [index_val]. *)
Definition main_split (a : args) : py (list nat * list nat) :=
  let g := set_rng_seed (seed a) in
  let g := backtest_rng a g in
  let num_eval_windows := ((num_windows a - 1) * test_window a + 1)%Z in
  let g := set_rng_seed 0 in
  index ← randperm g num_eval_windows;
  let index_test := slice_to (ceil_080 num_eval_windows) index in
  let index_val := slice_from (ceil_080 num_eval_windows) index in
  mret (index_test, index_val).
End Split.

End Solar.

(** * Statements

    Predicates in which the properties below are phrased. *)

Section CensoredStatements.
Import Censored.
Local Open Scope R_scope.

(** Contribution of data point [i] in the loop of the first model. *)
Definition loop_term (a_model b_model : R) (x y label : list R) (i : nat) : R :=
  if decide (nth i label 0 = 0)
  then Exponential_log_prob (rate_at a_model b_model x i) (nth i y 0)
  else Bernoulli_log_prob (1 - Exponential_cdf (rate_at a_model b_model x i) (nth i y 0))
         (nth i label 0).

(** Name of the sample statement that the loop of the first model runs
    for data point [i]. *)
Definition loop_site_name (label : list R) (i : nat) : string :=
  if decide (nth i label 0 = 0) then "obs_" +:+ pretty i
  else "truncation_label_" +:+ pretty i.

(** Observed log-density of the generated, censored data set: uncensored
    points contribute the exponential log-density at [y[i]], points above
    the threshold contribute [- c / link[i]]. *)
Definition generated_log_density (a_model b_model : R) (x y : list R) : R :=
  Rsum (map (λ i, if Rlt_dec c (nth i y 0)
                  then - (rate_at a_model b_model x i * c)
                  else Exponential_log_prob (rate_at a_model b_model x i) (nth i y 0))
          (seq 0 (length x))).

End CensoredStatements.

Section SolarStatements.
Import Solar.
Local Open Scope R_scope.

(** An optional attribute, when present, carries constraint [c]. *)
Definition has_constraint (c : constraint) (a : option PyroParam) : Prop :=
  ∀ p, a = Some p → constraint_of p = c.

(** What [__init__] declares and training keeps: valid flags, the
    constraint of every parameter, and the attributes each flag needs. *)
Record declared (self : StableLinearHMM.t) : Prop := {
  decl_trans_flag : StableLinearHMM.trans_noise self ∈ noise_flags;
  decl_obs_flag : StableLinearHMM.obs_noise self ∈ noise_flags;
  decl_obs_scale : constraint_of (StableLinearHMM.obs_noise_scale self) = positive;
  decl_trans_scale : constraint_of (StableLinearHMM.trans_noise_scale self) = positive;
  decl_trans_stability :
    has_constraint (interval 1.01 1.99) (StableLinearHMM.trans_stability self);
  decl_trans_skew :
    has_constraint (interval (-0.99) 0.99) (StableLinearHMM.trans_skew self);
  decl_trans_nu : has_constraint (interval 1.01 30.0) (StableLinearHMM.trans_nu self);
  decl_obs_stability :
    has_constraint (interval 1.01 1.99) (StableLinearHMM.obs_stability self);
  decl_obs_skew : has_constraint (interval (-0.99) 0.99) (StableLinearHMM.obs_skew self);
  decl_obs_nu : has_constraint (interval 1.01 30.0) (StableLinearHMM.obs_nu self);
  attr_trans_stability :
    StableLinearHMM.trans_noise self = "stable" ∨ StableLinearHMM.trans_noise self = "skew" →
    is_Some (StableLinearHMM.trans_stability self);
  attr_trans_skew :
    StableLinearHMM.trans_noise self = "skew" → is_Some (StableLinearHMM.trans_skew self);
  attr_trans_nu :
    StableLinearHMM.trans_noise self = "student" → is_Some (StableLinearHMM.trans_nu self);
  attr_obs_stability :
    StableLinearHMM.obs_noise self = "stable" ∨ StableLinearHMM.obs_noise self = "skew" →
    is_Some (StableLinearHMM.obs_stability self);
  attr_obs_skew :
    StableLinearHMM.obs_noise self = "skew" → is_Some (StableLinearHMM.obs_skew self);
  attr_obs_nu :
    StableLinearHMM.obs_noise self = "student" → is_Some (StableLinearHMM.obs_nu self)
}.

(** The transition noise built by [_get_trans_dist], flag by flag. *)
Definition trans_dist_follows_flag (self : StableLinearHMM.t) (d : distribution) : Prop :=
  let k := StableLinearHMM.state_dim self in
  let scale := value (StableLinearHMM.trans_noise_scale self) in
  (StableLinearHMM.trans_noise self = "gaussian" →
     d = Independent (Normal (zeros k) (Some scale)) 1)
  ∧ (StableLinearHMM.trans_noise self = "student" →
     ∃ nu, StableLinearHMM.trans_nu self = Some nu
       ∧ d = Independent (StudentT (value nu) (zeros k) scale) 1)
  ∧ (StableLinearHMM.trans_noise self = "stable" →
     ∃ stability, StableLinearHMM.trans_stability self = Some stability
       ∧ d = Independent (Stable (value stability) (zeros k)
                         (tmap (λ v, v / sqrt 2) scale)) 1)
  ∧ (StableLinearHMM.trans_noise self = "skew" →
     ∃ stability skew, StableLinearHMM.trans_stability self = Some stability
       ∧ StableLinearHMM.trans_skew self = Some skew
       ∧ d = Independent (Stable (value stability) (value skew)
                         (tmap (λ v, v / sqrt 2) scale)) 1).

(** The observation noise built by [_get_obs_dist], flag by flag. *)
Definition obs_dist_follows_flag (self : StableLinearHMM.t) (obs_scale : option tensor)
    (d : distribution) : Prop :=
  let k := StableLinearHMM.obs_dim self in
  let scale := value (StableLinearHMM.obs_noise_scale self) in
  (StableLinearHMM.obs_noise self = "gaussian" →
     d = Independent (Normal (zeros k) obs_scale) 1)
  ∧ (StableLinearHMM.obs_noise self = "student" →
     ∃ nu, StableLinearHMM.obs_nu self = Some nu
       ∧ d = Independent (StudentT (value nu) (zeros k) scale) 1)
  ∧ (StableLinearHMM.obs_noise self = "stable" →
     ∃ stability, StableLinearHMM.obs_stability self = Some stability
       ∧ d = Independent (Stable (value stability) (zeros k)
                         (tmap (λ v, v / sqrt 2) scale)) 1)
  ∧ (StableLinearHMM.obs_noise self = "skew" →
     ∃ stability skew, StableLinearHMM.obs_stability self = Some stability
       ∧ StableLinearHMM.obs_skew self = Some skew
       ∧ d = Independent (Stable (value stability) (value skew)
                         (tmap (λ v, v / sqrt 2) scale)) 1).

(** The library's checks for the constructor calls recorded in a
    distribution, innermost call first; and for the calls that make up a
    LinearHMM: its three distributions in argument order, then the
    LinearHMM itself. *)
Fixpoint accepts (lib : library) (d : distribution) : py unit :=
  match d with
  | Normal loc scale => Normal_check lib loc scale
  | StudentT df loc scale => StudentT_check lib df loc scale
  | Stable stability skew scale => Stable_check lib stability skew scale
  | Independent base k => _ ← accepts lib base; to_event_check lib base k
  end.

Definition accepts_hmm (lib : library) (h : LinearHMM) : py unit :=
  _ ← accepts lib (initial_dist h);
  _ ← accepts lib (transition_dist h);
  _ ← accepts lib (observation_dist h);
  LinearHMM_check lib h.

Definition stability_ok (t : tensor) : Prop := all_entries (λ v, 1.01 < v < 1.99) t.

(** Every parameter read of [self] lies in its declared constraint set. *)
Definition within_constraints (self : StableLinearHMM.t) : Prop :=
  all_entries (λ v, 0 < v) (value (StableLinearHMM.obs_noise_scale self))
  ∧ all_entries (λ v, 0 < v) (value (StableLinearHMM.trans_noise_scale self))
  ∧ (∀ p, StableLinearHMM.trans_stability self = Some p
          ∨ StableLinearHMM.obs_stability self = Some p →
          all_entries (λ v, 1.01 < v < 1.99) (value p))
  ∧ (∀ p, StableLinearHMM.trans_skew self = Some p
          ∨ StableLinearHMM.obs_skew self = Some p →
          all_entries (λ v, -0.99 < v < 0.99) (value p))
  ∧ (∀ p, StableLinearHMM.trans_nu self = Some p
          ∨ StableLinearHMM.obs_nu self = Some p →
          all_entries (λ v, 1.01 < v < 30.0) (value p)).

(** Every Stable distribution inside a LinearHMM returned by [get_dist]
    has its stability index strictly between 1 and 2. *)
Definition stable_indices_in_range (self : StableLinearHMM.t) : Prop :=
  ∀ lib duration obs_scale h,
    StableLinearHMM.get_dist lib self duration obs_scale = inr h →
    Forall (all_entries (λ v, 1 < v < 2)) (hmm_stabilities h).

(** What [get_data] relies on in [periodic_features(duration, 24 * 60, 10)]:
    for at least one time step it returns one row of features per time
    step; for zero time steps it raises RuntimeError (it reshapes an empty
    tensor with an unspecified dimension). *)
Definition features_contract (periodic_features : nat → Z → Z → py (list (list R)))
    : Prop :=
  (∀ k, (0 < k)%nat →
     ∃ features, periodic_features k (24 * 60)%Z 10%Z = inr features
       ∧ length features = k)
  ∧ periodic_features 0%nat (24 * 60)%Z 10%Z = inl RuntimeError.

(** A stand-in that meets the contract: constant features. *)
Definition constant_features (k : nat) (max_period min_period : Z)
    : py (list (list R)) :=
  match k with
  | O => raise RuntimeError
  | S _ => mret (replicate k [1])
  end.

(** The optional attributes exist exactly for the flags that use them. *)
Definition attributes_follow_flags (self : StableLinearHMM.t) : Prop :=
  (is_Some (StableLinearHMM.trans_stability self)
     ↔ StableLinearHMM.trans_noise self = "stable" ∨ StableLinearHMM.trans_noise self = "skew")
  ∧ (is_Some (StableLinearHMM.trans_skew self) ↔ StableLinearHMM.trans_noise self = "skew")
  ∧ (is_Some (StableLinearHMM.trans_nu self) ↔ StableLinearHMM.trans_noise self = "student")
  ∧ (is_Some (StableLinearHMM.obs_stability self)
     ↔ StableLinearHMM.obs_noise self = "stable" ∨ StableLinearHMM.obs_noise self = "skew")
  ∧ (is_Some (StableLinearHMM.obs_skew self) ↔ StableLinearHMM.obs_noise self = "skew")
  ∧ (is_Some (StableLinearHMM.obs_nu self) ↔ StableLinearHMM.obs_noise self = "student").

(** A reparameterizer fits the noise distribution it is configured for:
    none for a Normal, StudentTReparam for a StudentT, StableReparam for
    a Stable, SymmetricStableReparam for a Stable whose skewness is zero. *)
Definition reparam_matches (r : option reparam) (d : distribution) : Prop :=
  match d with
  | Independent (Normal _ _) _ => r = None
  | Independent (StudentT _ _ _) _ => r = Some StudentTReparam
  | Independent (Stable _ skew _) _ =>
      r = Some StableReparam
      ∨ (r = Some SymmetricStableReparam ∧ all_entries (λ v, v = 0) skew)
  | _ => False
  end.

End SolarStatements.

(** * Properties of the censored time-to-event script *)

Section CensoredFacts.
Import Censored.
Local Open Scope R_scope.

Lemma gt_float_cases (bound v : R) :
  (bound < v ∧ gt_float bound v = 1) ∨ (v <= bound ∧ gt_float bound v = 0).
Proof.
  unfold gt_float. destruct (Rlt_dec bound v) as [Hlt|Hge]; [left|right]; split; auto.
  apply Rnot_lt_le, Hge.
Qed.

(** C2: in the generated data, the label of index [i] is 1 exactly when
    [y[i] > 8] and 0 otherwise, [y_obs[i] = min(y[i], 8)]; so
    [y_obs[i] <= 8], [y_obs[i] = y[i]] for label 0 and [y_obs[i] = 8] for
    label 1. *)
Theorem censoring_labels_and_clamp (y : list R) (i : nat) (v : R) :
  y !! i = Some v →
  ∃ l o, truncation_label y !! i = Some l ∧ y_obs y !! i = Some o ∧
    (l = 1 ↔ v > 8) ∧ (l = 0 ↔ ¬ v > 8) ∧ (l = 0 ∨ l = 1) ∧
    o = Rmin v 8 ∧ o <= 8 ∧ (l = 0 → o = v) ∧ (l = 1 → o = 8).
Proof.
  intros Hv. exists (gt_float c v), (clamp_max c v).
  unfold truncation_label, y_obs. rewrite !list_lookup_fmap, Hv. simpl.
  unfold clamp_max, c.
  destruct (gt_float_cases 8 v) as [[Hlt ->]|[Hle ->]].
  - rewrite (Rmin_right v 8) by lra.
    repeat split; auto; try lra.
  - rewrite (Rmin_left v 8) by lra.
    repeat split; auto; try lra.
Qed.

Lemma censoring_labels_and_clamp_witness :
  ∃ l o, truncation_label [3; 11] !! 1%nat = Some l ∧ y_obs [3; 11] !! 1%nat = Some o ∧
    (l = 1 ↔ 11 > 8) ∧ (l = 0 ↔ ¬ 11 > 8) ∧ (l = 0 ∨ l = 1) ∧
    o = Rmin 11 8 ∧ o <= 8 ∧ (l = 0 → o = 11) ∧ (l = 1 → o = 8).
Proof. apply (censoring_labels_and_clamp [3; 11] 1 11). reflexivity. Defined.

(** Sums over tensors and over index sets. *)

Lemma Rsum_app (l1 l2 : list R) : Rsum (l1 ++ l2) = Rsum l1 + Rsum l2.
Proof. induction l1 as [|v l1 IH]; simpl; [lra | rewrite IH; lra]. Qed.

Lemma Rsum_split_filter (P : nat → Prop) `{!∀ i, Decision (P i)} (f g : nat → R) (idx : list nat) :
  Rsum (map (λ i, if decide (P i) then f i else g i) idx)
  = Rsum (map f (filter P idx)) + Rsum (map g (filter (λ i, ¬ P i) idx)).
Proof.
  induction idx as [|i idx IH]; simpl; [lra|].
  rewrite !filter_cons. destruct (decide (P i)) as [HP|HP].
  - rewrite decide_False by tauto. simpl. rewrite IH. lra.
  - rewrite decide_True by tauto. simpl. rewrite IH. lra.
Qed.

Lemma Rsum_zero (A : Type) (l : list A) : Rsum (map (λ _, 0) l) = 0.
Proof. induction l; simpl; lra. Qed.

Lemma filter_ext_in (P Q : nat → Prop) `{!∀ i, Decision (P i)} `{!∀ i, Decision (Q i)}
    (idx : list nat) :
  Forall (λ i, P i ↔ Q i) idx → filter P idx = filter Q idx.
Proof.
  induction 1 as [|i idx Hi _ IH]; [done|].
  rewrite !filter_cons, IH.
  destruct (decide (P i)), (decide (Q i)); tauto.
Qed.

Lemma observed_sample_obs name lp tr :
  observed_log_density (sample_obs name lp tr) = observed_log_density tr + lp.
Proof.
  unfold observed_log_density, sample_obs.
  rewrite filter_app, map_app, Rsum_app. simpl. lra.
Qed.

Lemma observed_sample_latent name lp tr :
  observed_log_density (sample_latent name lp tr) = observed_log_density tr.
Proof.
  unfold observed_log_density, sample_latent.
  rewrite filter_app, map_app, Rsum_app. simpl. lra.
Qed.

Lemma Rsum_cons (v : R) (l : list R) : Rsum (v :: l) = v + Rsum l.
Proof. reflexivity. Qed.

Lemma link_of_lookup a_model b_model (x : list R) (i : nat) (xi : R) :
  x !! i = Some xi →
  link_of a_model b_model x !! i = Some (softplus (a_model * xi + b_model)).
Proof. intros H. unfold link_of. by rewrite list_lookup_fmap, H. Qed.

Lemma loop_term_lookup a_model b_model (x y label : list R) (i : nat) (xi yi li : R) :
  x !! i = Some xi → y !! i = Some yi → label !! i = Some li →
  loop_term a_model b_model x y label i
  = if decide (li = 0)
    then Exponential_log_prob (1 / softplus (a_model * xi + b_model)) yi
    else Bernoulli_log_prob
           (1 - Exponential_cdf (1 / softplus (a_model * xi + b_model)) yi) li.
Proof.
  intros Hx Hy Hl. unfold loop_term, rate_at.
  by rewrite (nth_lookup_Some _ _ 0 _ Hx), (nth_lookup_Some _ _ 0 _ Hy),
    (nth_lookup_Some _ _ 0 _ Hl).
Qed.

Lemma model_loop_spec a_model b_model (x y label : list R) (idx : list nat) (tr : trace) :
  length y = length x → length label = length x →
  Forall (λ i, (i < length x)%nat) idx →
  ∃ tr', model_loop (link_of a_model b_model x) y label idx tr = inr tr'
    ∧ observed_log_density tr'
      = observed_log_density tr + Rsum (map (loop_term a_model b_model x y label) idx).
Proof.
  intros Hy Hl Hidx. revert tr.
  induction Hidx as [|i idx Hi _ IH]; intros tr.
  - exists tr. simpl. split; [done | lra].
  - destruct (lookup_lt_is_Some_2 x i Hi) as [xi Hxi].
    destruct (lookup_lt_is_Some_2 y i ltac:(lia)) as [yi Hyi].
    destruct (lookup_lt_is_Some_2 label i ltac:(lia)) as [li Hli].
    cbn [model_loop]. unfold getitem.
    rewrite (link_of_lookup _ _ _ _ _ Hxi), Hli, Hyi.
    cbn [of_option mbind py_bind mret py_ret].
    rewrite map_cons, Rsum_cons, (loop_term_lookup _ _ _ _ _ _ _ _ _ Hxi Hyi Hli).
    destruct (decide (li = 0)) as [Hz|Hz].
    + destruct (IH (sample_obs ("obs_" +:+ pretty i)
        (Exponential_log_prob (1 / softplus (a_model * xi + b_model)) yi) tr))
        as (tr' & -> & Hobs).
      exists tr'. split; [done|]. rewrite Hobs, observed_sample_obs. lra.
    + destruct (IH (sample_obs ("truncation_label_" +:+ pretty i)
        (Bernoulli_log_prob
           (1 - Exponential_cdf (1 / softplus (a_model * xi + b_model)) yi) li) tr))
        as (tr' & -> & Hobs).
      exists tr'. split; [done|]. rewrite Hobs, observed_sample_obs. lra.
Qed.

Lemma broadcast2_same_length {A B C} (f : A → B → C) (u : list A) (v : list B) :
  length u = length v → broadcast2 f u v = inr (zip_with f u v).
Proof. intros H. unfold broadcast2. by rewrite decide_True. Qed.

(** A masked log-probability tensor sums to the sum over the indices that
    the mask selects. *)
Lemma masked_sum_index (label lp : list R) (target : R) (h : nat → R) :
  length lp = length label →
  (∀ i v, lp !! i = Some v → v = h i) →
  Rsum (zip_with mask_fill (map (λ l, bool_decide (l = target)) label) lp)
  = Rsum (map h (filter (λ i, nth i label 0 = target) (seq 0 (length label)))).
Proof.
  intros Hlen Hh.
  transitivity (Rsum (map (λ i, if decide (nth i label 0 = target) then h i else 0)
                        (seq 0 (length label)))).
  - f_equal. apply list_eq. intros i.
    rewrite lookup_zip_with, !list_lookup_fmap.
    destruct (decide (i < length label)%nat) as [Hi|Hi].
    + rewrite lookup_seq_lt by done.
      destruct (lookup_lt_is_Some_2 label i Hi) as [li Hli].
      destruct (lookup_lt_is_Some_2 lp i ltac:(lia)) as [v Hv].
      rewrite Hli, Hv. simpl.
      rewrite (nth_lookup_Some _ _ 0 _ Hli), (Hh _ _ Hv).
      unfold mask_fill. by destruct (decide (li = target));
        [rewrite bool_decide_eq_true_2 | rewrite bool_decide_eq_false_2].
    + rewrite lookup_seq_ge by lia.
      by rewrite (lookup_ge_None_2 label) by lia.
  - rewrite (Rsum_split_filter (λ i, nth i label 0 = target)), Rsum_zero. lra.
Qed.

(** C1: on equally long tensors with labels in {0, 1}, both models return,
    and the observed log-density of each is the exponential log-density
    summed over the uncensored indices plus the log survival probability
    summed over the censored ones. *)
Theorem vectorized_model_matches_sequential (a_model b_model : R) (x y label : list R) :
  length y = length x → length label = length x →
  Forall (λ l, l = 0 ∨ l = 1) label →
  ∃ tr_seq tr_vec,
    model_sequential a_model b_model x y label = inr tr_seq
    ∧ model_vectorized a_model b_model x y label = inr tr_vec
    ∧ observed_log_density tr_vec = censored_log_density a_model b_model x y label
    ∧ observed_log_density tr_seq = censored_log_density a_model b_model x y label
    ∧ observed_log_density tr_vec = observed_log_density tr_seq.
Proof.
  intros Hy Hl Hlab.
  assert (Hidx : Forall (λ i, (i < length x)%nat) (seq 0 (length x))).
  { apply Forall_seq. intros; lia. }
  destruct (model_loop_spec a_model b_model x y label (seq 0 (length x))
    (sample_latent "b_model" (Normal_log_prob 0 10 b_model)
       (sample_latent "a_model" (Normal_log_prob 0 10 a_model) [])) Hy Hl Hidx)
    as (tr_seq & Hseq & Hobs_seq).
  assert (Hseq_eq : observed_log_density tr_seq
                    = censored_log_density a_model b_model x y label).
  { rewrite Hobs_seq, !observed_sample_latent.
    unfold observed_log_density at 1. rewrite filter_nil. simpl.
    unfold loop_term.
    rewrite (Rsum_split_filter (λ i, nth i label 0 = 0)).
    unfold censored_log_density.
    rewrite (filter_ext_in (λ i, ¬ nth i label 0 = 0) (λ i, nth i label 0 = 1)).
    2:{ apply Forall_seq. intros i Hi.
        destruct (lookup_lt_is_Some_2 label i ltac:(lia)) as [li Hli].
        rewrite (nth_lookup_Some _ _ 0 _ Hli).
        destruct (proj1 (Forall_lookup _ _) Hlab i li Hli); lra. }
    rewrite Rplus_0_l. f_equal. f_equal.
    apply map_ext_in. intros i Hi%list_elem_of_In%list_elem_of_filter.
    destruct Hi as [-> _]. unfold Bernoulli_log_prob. lra. }
  unfold model_vectorized.
  set (link := link_of a_model b_model x).
  set (rate := map (λ l, 1 / l) link).
  assert (Hrate : length rate = length y).
  { unfold rate, link, link_of. rewrite !length_map. lia. }
  rewrite (broadcast2_same_length Exponential_log_prob rate y Hrate).
  rewrite (broadcast2_same_length Exponential_cdf rate y Hrate).
  cbn [mbind py_bind].
  rewrite (broadcast2_same_length mask_fill)
    by (rewrite !length_map, length_zip_with; lia).
  cbn [mbind py_bind].
  rewrite (broadcast2_same_length mask_fill)
    by (rewrite !length_map, length_zip_with; lia).
  cbn [mbind py_bind mret py_ret].
  eexists tr_seq, _. split; [exact Hseq|]. split; [reflexivity|].
  assert (Hrate_i : ∀ i r, rate !! i = Some r → r = rate_at a_model b_model x i).
  { intros i r. unfold rate, link, link_of, rate_at.
    rewrite !list_lookup_fmap. destruct (x !! i) as [xi|] eqn:Hxi; [|done].
    rewrite (nth_lookup_Some _ _ 0 _ Hxi). simpl. congruence. }
  assert (Hy_i : ∀ i v, y !! i = Some v → v = nth i y 0).
  { intros i v H. by rewrite (nth_lookup_Some _ _ 0 _ H). }
  assert (Hvec_eq : ∀ tr, observed_log_density tr = 0 →
    observed_log_density
      (sample_obs "truncation_label"
         (Rsum (zip_with mask_fill (map (λ l, bool_decide (l = 1)) label)
            (map (λ p, Bernoulli_log_prob p 1)
               (map (λ p, 1 - p) (zip_with Exponential_cdf rate y)))))
         (sample_obs "obs"
            (Rsum (zip_with mask_fill (map (λ l, bool_decide (l = 0)) label)
               (zip_with Exponential_log_prob rate y))) tr))
    = censored_log_density a_model b_model x y label).
  { intros tr Htr. rewrite !observed_sample_obs, Htr.
    rewrite (masked_sum_index label _ 0
      (λ i, Exponential_log_prob (rate_at a_model b_model x i) (nth i y 0))).
    2:{ rewrite length_zip_with; lia. }
    2:{ intros i v. rewrite lookup_zip_with.
        destruct (rate !! i) as [r|] eqn:Hr; [|done].
        destruct (y !! i) as [yi|] eqn:Hyi; [|done]. simpl.
        rewrite (Hrate_i _ _ Hr), (Hy_i _ _ Hyi). congruence. }
    rewrite (masked_sum_index label _ 1
      (λ i, ln (1 - Exponential_cdf (rate_at a_model b_model x i) (nth i y 0)))).
    2:{ rewrite !length_map, length_zip_with; lia. }
    2:{ intros i v. rewrite !list_lookup_fmap, lookup_zip_with.
        destruct (rate !! i) as [r|] eqn:Hr; [|done].
        destruct (y !! i) as [yi|] eqn:Hyi; [|done]. simpl.
        rewrite (Hrate_i _ _ Hr), (Hy_i _ _ Hyi).
        intros [= <-]. unfold Bernoulli_log_prob. lra. }
    unfold censored_log_density. rewrite Hl. lra. }
  assert (Hlat : observed_log_density
      (sample_latent "b_model" (Normal_log_prob 0 10 b_model)
         (sample_latent "a_model" (Normal_log_prob 0 10 a_model) [])) = 0).
  { rewrite !observed_sample_latent. reflexivity. }
  split; [exact (Hvec_eq _ Hlat)|]. split; [exact Hseq_eq|].
  rewrite (Hvec_eq _ Hlat). by rewrite Hseq_eq.
Qed.

Lemma vectorized_model_matches_sequential_witness :
  ∃ tr_seq tr_vec,
    model_sequential 2 4 [0; 1] [3; 8] [0; 1] = inr tr_seq
    ∧ model_vectorized 2 4 [0; 1] [3; 8] [0; 1] = inr tr_vec
    ∧ observed_log_density tr_vec = censored_log_density 2 4 [0; 1] [3; 8] [0; 1]
    ∧ observed_log_density tr_seq = censored_log_density 2 4 [0; 1] [3; 8] [0; 1]
    ∧ observed_log_density tr_vec = observed_log_density tr_seq.
Proof.
  apply (vectorized_model_matches_sequential 2 4 [0; 1] [3; 8] [0; 1]);
    [reflexivity | reflexivity | ].
  apply Forall_cons; split; [left; reflexivity|].
  apply Forall_cons; split; [right; reflexivity|]. apply Forall_nil_2.
Defined.

End CensoredFacts.

(** * Properties of the forecasting script *)

Section SolarFacts.
Import Solar.
Local Open Scope R_scope.

Lemma flag_cases (f : string) :
  f ∈ noise_flags → f = "gaussian" ∨ f = "stable" ∨ f = "student" ∨ f = "skew".
Proof. unfold noise_flags. rewrite !elem_of_cons, elem_of_nil. tauto. Qed.

Lemma init_cases (obs_dim : nat) (trans_noise obs_noise : string)
    (state_dim : nat) (randn_trans randn_obs : list (list R)) :
  (trans_noise ∈ noise_flags ∧ obs_noise ∈ noise_flags
   ∧ ∃ self, StableLinearHMM.__init__ obs_dim trans_noise obs_noise state_dim
               randn_trans randn_obs = inr self)
  ∨ ((trans_noise ∉ noise_flags ∨ obs_noise ∉ noise_flags)
     ∧ StableLinearHMM.__init__ obs_dim trans_noise obs_noise state_dim
         randn_trans randn_obs = inl AssertionError).
Proof.
  unfold StableLinearHMM.__init__, py_assert.
  destruct (decide (trans_noise ∈ noise_flags)) as [Ht|Ht];
    [rewrite (bool_decide_eq_true_2 _ Ht) | rewrite (bool_decide_eq_false_2 _ Ht)];
    cbn [mbind py_bind mret py_ret raise]; [|right; auto].
  destruct (decide (obs_noise ∈ noise_flags)) as [Ho|Ho];
    [rewrite (bool_decide_eq_true_2 _ Ho) | rewrite (bool_decide_eq_false_2 _ Ho)];
    cbn [mbind py_bind mret py_ret raise]; [left; eauto | right; auto].
Qed.

(** C5: constructing a StableLinearHMM succeeds exactly for flag pairs from
    gaussian/stable/student/skew, and every other value of either flag
    raises AssertionError. *)
Theorem init_succeeds_iff_flags_valid (obs_dim : nat) (trans_noise obs_noise : string)
    (state_dim : nat) (randn_trans randn_obs : list (list R)) :
  (trans_noise ∈ noise_flags ∧ obs_noise ∈ noise_flags
   ↔ ∃ self, StableLinearHMM.__init__ obs_dim trans_noise obs_noise state_dim
               randn_trans randn_obs = inr self)
  ∧ (trans_noise ∉ noise_flags ∨ obs_noise ∉ noise_flags
     ↔ StableLinearHMM.__init__ obs_dim trans_noise obs_noise state_dim
         randn_trans randn_obs = inl AssertionError).
Proof.
  destruct (init_cases obs_dim trans_noise obs_noise state_dim randn_trans randn_obs)
    as [(Ht & Ho & self & ->)|[Hnot ->]].
  - split; split; try done; [eauto | tauto].
  - split; split; try done; [tauto | by intros [? ?]].
Qed.

Example init_rejects_laplace :
  StableLinearHMM.__init__ 1 "laplace" "gaussian" 3 [] [] = inl AssertionError.
Proof. reflexivity. Qed.

Lemma init_flags_valid obs_dim trans_noise obs_noise state_dim randn_trans randn_obs self :
  StableLinearHMM.__init__ obs_dim trans_noise obs_noise state_dim randn_trans randn_obs
    = inr self →
  trans_noise ∈ noise_flags ∧ obs_noise ∈ noise_flags.
Proof.
  intros H.
  destruct (init_cases obs_dim trans_noise obs_noise state_dim randn_trans randn_obs)
    as [(Ht & Ho & _)|[_ Hexn]]; [done | congruence].
Qed.

Lemma init_returns obs_dim trans_noise obs_noise state_dim randn_trans randn_obs :
  trans_noise ∈ noise_flags → obs_noise ∈ noise_flags →
  ∃ self, StableLinearHMM.__init__ obs_dim trans_noise obs_noise state_dim
            randn_trans randn_obs = inr self.
Proof.
  intros Ht Ho.
  destruct (init_cases obs_dim trans_noise obs_noise state_dim randn_trans randn_obs)
    as [(_ & _ & H)|[[?|?] _]]; done.
Qed.

(** C6: for flags from gaussian/stable/student/skew, Model.__init__ maps
    the "residual" site to a LinearHMMReparam whose transition and
    observation parts follow the flags: None for gaussian,
    SymmetricStableReparam for stable, StableReparam for skew and
    StudentTReparam for student. *)
Theorem model_config_matches_flags (trans_noise obs_noise : string) (state_dim obs_dim : nat)
    (randn_trans randn_obs : list (list R)) :
  trans_noise ∈ noise_flags → obs_noise ∈ noise_flags →
  ∃ self r,
    Model.__init__ trans_noise obs_noise state_dim obs_dim randn_trans randn_obs = inr self
    ∧ Model.config self !! "residual" = Some r
    ∧ (trans_noise = "gaussian" → reparam_trans r = None)
    ∧ (trans_noise = "stable" → reparam_trans r = Some SymmetricStableReparam)
    ∧ (trans_noise = "skew" → reparam_trans r = Some StableReparam)
    ∧ (trans_noise = "student" → reparam_trans r = Some StudentTReparam)
    ∧ (obs_noise = "gaussian" → reparam_obs r = None)
    ∧ (obs_noise = "stable" → reparam_obs r = Some SymmetricStableReparam)
    ∧ (obs_noise = "skew" → reparam_obs r = Some StableReparam)
    ∧ (obs_noise = "student" → reparam_obs r = Some StudentTReparam).
Proof.
  intros Ht Ho.
  destruct (init_returns obs_dim trans_noise obs_noise state_dim randn_trans randn_obs
    Ht Ho) as [h Hh].
  unfold Model.__init__. rewrite Hh. cbn [mbind py_bind mret py_ret].
  eexists _, _. split; [reflexivity|].
  cbn [Model.config]. split; [apply lookup_singleton_eq|].
  cbn [reparam_trans reparam_obs].
  repeat split; intros ->; reflexivity.
Qed.

Lemma model_config_matches_flags_witness :
  ∃ self r,
    Model.__init__ "stable" "student" 3 14 [] [] = inr self
    ∧ Model.config self !! "residual" = Some r
    ∧ ("stable" = "gaussian" → reparam_trans r = None)
    ∧ ("stable" = "stable" → reparam_trans r = Some SymmetricStableReparam)
    ∧ ("stable" = "skew" → reparam_trans r = Some StableReparam)
    ∧ ("stable" = "student" → reparam_trans r = Some StudentTReparam)
    ∧ ("student" = "gaussian" → reparam_obs r = None)
    ∧ ("student" = "stable" → reparam_obs r = Some SymmetricStableReparam)
    ∧ ("student" = "skew" → reparam_obs r = Some StableReparam)
    ∧ ("student" = "student" → reparam_obs r = Some StudentTReparam).
Proof.
  apply (model_config_matches_flags "stable" "student" 3 14 [] []);
    unfold noise_flags; set_solver.
Defined.

(** The repeated hour index and [index_select]. *)

Lemma length_repeat_tensor {A} (v : list A) (k : nat) :
  length (repeat_tensor v k) = (k * length v)%nat.
Proof.
  unfold repeat_tensor. induction k as [|k IH]; [done|].
  cbn [replicate concat]. rewrite length_app, IH. lia.
Qed.

Lemma lookup_repeat_tensor {A} (v : list A) (k i : nat) :
  (i < k * length v)%nat → repeat_tensor v k !! i = v !! (i mod length v)%nat.
Proof.
  unfold repeat_tensor. revert i. induction k as [|k IH]; intros i Hi; [lia|].
  cbn [replicate concat].
  destruct (decide (i < length v)%nat) as [Hlt|Hge].
  - rewrite lookup_app_l by done. by rewrite Nat.mod_small.
  - rewrite lookup_app_r by lia. rewrite IH by lia.
    f_equal. replace i with ((i - length v) + 1 * length v)%nat at 2 by lia.
    by rewrite Nat.Div0.mod_add.
Qed.

Lemma index_select_spec {A} (v : list A) (index : list nat) :
  Forall (λ i, (i < length v)%nat) index →
  ∃ sel, index_select v index = inr sel
    ∧ length sel = length index
    ∧ ∀ t i, index !! t = Some i → sel !! t = v !! i.
Proof.
  induction 1 as [|i index Hi _ (sel & Hsel & Hlen & Hrows)].
  - exists []. split; [done|]. split; [done|]. intros t i. by rewrite lookup_nil.
  - destruct (lookup_lt_is_Some_2 v i Hi) as [row Hrow].
    exists (row :: sel). cbn [index_select]. rewrite Hrow, Hsel.
    split; [done|]. split; [simpl; lia|].
    intros [|t] j; simpl; [intros [= <-]; done | apply Hrows].
Qed.

Example hour_wraps : Model.hour (replicate 49 []) !! 25%nat = Some 1%nat.
Proof. reflexivity. Qed.

(** C8: with T the covariate length, the hour index has 24 * (T // 24)
    entries and selects that many rows of the 24-row parameter.  For T
    divisible by 24 the selected scale has T rows and row t is parameter
    row t mod 24; for every other T it has fewer than T rows, so it cannot
    match a duration of T. *)
Theorem hourly_obs_scale_rows (obs_scale_param covariates : list (list R)) :
  length obs_scale_param = 24%nat →
  let T := length covariates in
  ∃ sel, Model.model_obs_scale obs_scale_param covariates = inr sel
    ∧ length (Model.hour covariates) = (24 * (T / 24))%nat
    ∧ length sel = length (Model.hour covariates)
    ∧ ((T mod 24 = 0)%nat →
         length sel = T
         ∧ ∀ t, (t < T)%nat → sel !! t = obs_scale_param !! (t mod 24)%nat)
    ∧ ((T mod 24 ≠ 0)%nat →
         (length (Model.hour covariates) < T)%nat ∧ (length sel < T)%nat).
Proof.
  intros Hparam T.
  assert (Hlen : length (Model.hour covariates) = (24 * (T / 24))%nat).
  { unfold Model.hour. rewrite length_repeat_tensor. unfold arange.
    rewrite length_seq. fold T. lia. }
  assert (Hhour : ∀ t, (t < 24 * (T / 24))%nat →
            Model.hour covariates !! t = Some (t mod 24)%nat).
  { intros t Ht. unfold Model.hour.
    rewrite lookup_repeat_tensor; unfold arange; rewrite length_seq; fold T; [|lia].
    apply lookup_seq_lt. apply Nat.mod_upper_bound. lia. }
  destruct (index_select_spec obs_scale_param (Model.hour covariates))
    as (sel & Hsel & Hsel_len & Hrows).
  { apply Forall_lookup. intros t i Hti.
    assert (t < 24 * (T / 24))%nat as Ht.
    { rewrite <- Hlen. eapply lookup_lt_Some, Hti. }
    assert (i = (t mod 24)%nat) as -> by (rewrite (Hhour t Ht) in Hti; congruence).
    rewrite Hparam. apply Nat.mod_upper_bound. lia. }
  exists sel. unfold Model.model_obs_scale.
  split; [exact Hsel|]. split; [exact Hlen|]. split; [exact Hsel_len|].
  pose proof (Nat.div_mod_eq T 24) as Hdm.
  split.
  - intros Hmod. split; [lia|].
    intros t Ht. apply Hrows, Hhour. lia.
  - intros Hmod. pose proof (Nat.mod_upper_bound T 24). lia.
Qed.

Lemma hourly_obs_scale_rows_witness :
  ∃ sel, Model.model_obs_scale (replicate 24 [0.2%R]) (replicate 25 [1%R]) = inr sel
    ∧ length (Model.hour (replicate 25 [1%R])) = (24 * (25 / 24))%nat
    ∧ length sel = length (Model.hour (replicate 25 [1%R]))
    ∧ ((25 mod 24 = 0)%nat →
         length sel = 25%nat
         ∧ ∀ t, (t < 25)%nat → sel !! t = replicate 24 [0.2%R] !! (t mod 24)%nat)
    ∧ ((25 mod 24 ≠ 0)%nat →
         (length (Model.hour (replicate 25 [1%R])) < 25)%nat ∧ (length sel < 25)%nat).
Proof.
  apply (hourly_obs_scale_rows (replicate 24 [0.2%R]) (replicate 25 [1%R])). reflexivity.
Defined.

(** *** Instances of StableLinearHMM: attributes and constraints *)

Lemma has_constraint_None c : has_constraint c None.
Proof. intros p. discriminate. Qed.

Lemma has_constraint_mk c init : has_constraint c (Some (mkPyroParam init c)).
Proof. intros p [= <-]. reflexivity. Qed.

Lemma has_constraint_step c upd name a :
  has_constraint c a → has_constraint c (StableLinearHMM.step_param upd name <$> a).
Proof.
  intros H p. destruct a as [q|]; simpl; [|discriminate].
  intros [= <-]. simpl. by apply H.
Qed.

Lemma init_declared obs_dim trans_noise obs_noise state_dim randn_trans randn_obs self :
  StableLinearHMM.__init__ obs_dim trans_noise obs_noise state_dim randn_trans randn_obs
    = inr self →
  declared self.
Proof.
  intros Hinit.
  destruct (init_flags_valid _ _ _ _ _ _ _ Hinit) as [Ht Ho].
  unfold StableLinearHMM.__init__, py_assert in Hinit.
  rewrite (bool_decide_eq_true_2 _ Ht), (bool_decide_eq_true_2 _ Ho) in Hinit.
  cbn [mbind py_bind mret py_ret] in Hinit. injection Hinit as <-.
  split; cbn [StableLinearHMM.trans_noise StableLinearHMM.obs_noise
    StableLinearHMM.obs_noise_scale StableLinearHMM.trans_noise_scale
    StableLinearHMM.trans_stability StableLinearHMM.trans_skew StableLinearHMM.trans_nu
    StableLinearHMM.obs_stability StableLinearHMM.obs_skew StableLinearHMM.obs_nu];
    try done;
    repeat (match goal with |- context [bool_decide ?P] => destruct (bool_decide_reflect P) end);
    try apply has_constraint_None; try apply has_constraint_mk;
    try (intros; eexists; reflexivity);
    intros Hflag; exfalso;
    repeat match goal with H : ¬ (_ ∈ _) |- _ => rewrite !elem_of_cons in H end;
    try tauto;
    subst; match goal with H : _ ∈ [_; _] |- _ =>
      rewrite !elem_of_cons, elem_of_nil in H; intuition discriminate end.
Qed.

Lemma step_declared upd self :
  declared self → declared (StableLinearHMM.optimizer_step upd self).
Proof.
  intros [].
  split; cbn [StableLinearHMM.optimizer_step StableLinearHMM.trans_noise
    StableLinearHMM.obs_noise StableLinearHMM.obs_noise_scale
    StableLinearHMM.trans_noise_scale StableLinearHMM.trans_stability
    StableLinearHMM.trans_skew StableLinearHMM.trans_nu StableLinearHMM.obs_stability
    StableLinearHMM.obs_skew StableLinearHMM.obs_nu StableLinearHMM.step_param
    constraint_of];
    try done; try (by apply has_constraint_step);
    intros; apply fmap_is_Some; auto.
Qed.

Lemma reachable_declared self : StableLinearHMM.reachable self → declared self.
Proof.
  induction 1 as [? ? ? ? ? ? self Hinit | upd self _ IH].
  - eapply init_declared, Hinit.
  - by apply step_declared.
Qed.

Ltac flag_branches :=
  repeat match goal with
         | |- context [bool_decide ?P] => destruct (bool_decide_reflect P); try discriminate
         end.

(** Splits on the outcome of every library check in the goal. *)
Ltac library_checks :=
  repeat (cbn [mbind py_bind mret py_ret];
          match goal with
          | |- context [Normal_check ?l ?a ?b] => destruct (Normal_check l a b) as [?|[]]
          | |- context [StudentT_check ?l ?a ?b ?c] =>
              destruct (StudentT_check l a b c) as [?|[]]
          | |- context [Stable_check ?l ?a ?b ?c] =>
              destruct (Stable_check l a b c) as [?|[]]
          | |- context [to_event_check ?l ?a ?b] =>
              destruct (to_event_check l a b) as [?|[]]
          | |- context [LinearHMM_check ?l ?a] => destruct (LinearHMM_check l a) as [?|[]]
          end).

Lemma get_init_dist_spec lib self :
  StableLinearHMM._get_init_dist lib self
  = (_ ← accepts lib (Independent (Normal (zeros (StableLinearHMM.state_dim self))
                                     (Some (ones (StableLinearHMM.state_dim self)))) 1);
     mret (Independent (Normal (zeros (StableLinearHMM.state_dim self))
                          (Some (ones (StableLinearHMM.state_dim self)))) 1)).
Proof.
  unfold StableLinearHMM._get_init_dist, new_Normal, to_event. cbn [accepts].
  library_checks; reflexivity.
Qed.

Ltac flag_conjuncts :=
  split; [|split; [|split]]; intros Hflag; try discriminate Hflag;
  repeat econstructor.

Lemma get_trans_dist_spec self :
  declared self →
  ∃ d, trans_dist_follows_flag self d
    ∧ ∀ lib, StableLinearHMM._get_trans_dist lib self = (_ ← accepts lib d; mret d).
Proof.
  intros Hd. unfold StableLinearHMM._get_trans_dist, trans_dist_follows_flag.
  set (k := StableLinearHMM.state_dim self).
  set (scale := value (StableLinearHMM.trans_noise_scale self)).
  destruct (flag_cases _ (decl_trans_flag _ Hd)) as [Hf|[Hf|[Hf|Hf]]]; rewrite Hf;
    flag_branches; try congruence.
  - exists (Independent (Normal (zeros k) (Some scale)) 1). split; [flag_conjuncts|].
    intros lib. unfold StableLinearHMM.getattr. cbn [of_option fmap py_fmap mret py_ret].
    unfold new_Normal, to_event. cbn [accepts].
    library_checks; reflexivity.
  - destruct (attr_trans_stability _ Hd (or_introl Hf)) as [st Hst]. rewrite Hst.
    exists (Independent (Stable (value st) (zeros k) (tmap (λ v, v / sqrt 2) scale)) 1).
    split; [flag_conjuncts|].
    intros lib. unfold StableLinearHMM.getattr. cbn [of_option fmap py_fmap mret py_ret].
    unfold new_Stable, to_event. cbn [accepts].
    fold root_two. library_checks; reflexivity.
  - destruct (attr_trans_nu _ Hd Hf) as [nu Hnu]. rewrite Hnu.
    exists (Independent (StudentT (value nu) (zeros k) scale) 1).
    split; [flag_conjuncts|].
    intros lib. unfold StableLinearHMM.getattr. cbn [of_option fmap py_fmap mret py_ret].
    unfold new_StudentT, to_event. cbn [accepts].
    library_checks; reflexivity.
  - destruct (attr_trans_stability _ Hd (or_intror Hf)) as [st Hst].
    destruct (attr_trans_skew _ Hd Hf) as [sk Hsk]. rewrite Hst, Hsk.
    exists (Independent (Stable (value st) (value sk) (tmap (λ v, v / sqrt 2) scale)) 1).
    split; [flag_conjuncts|].
    intros lib. unfold StableLinearHMM.getattr. cbn [of_option fmap py_fmap mret py_ret].
    unfold new_Stable, to_event. cbn [accepts].
    fold root_two. library_checks; reflexivity.
Qed.

Lemma get_obs_dist_spec self obs_scale :
  declared self →
  ∃ d, obs_dist_follows_flag self obs_scale d
    ∧ ∀ lib, StableLinearHMM._get_obs_dist lib self obs_scale
             = (_ ← accepts lib d; mret d).
Proof.
  intros Hd. unfold StableLinearHMM._get_obs_dist, obs_dist_follows_flag.
  set (k := StableLinearHMM.obs_dim self).
  set (scale := value (StableLinearHMM.obs_noise_scale self)).
  destruct (flag_cases _ (decl_obs_flag _ Hd)) as [Hf|[Hf|[Hf|Hf]]]; rewrite Hf;
    flag_branches; try congruence.
  - exists (Independent (Normal (zeros k) obs_scale) 1). split; [flag_conjuncts|].
    intros lib. unfold StableLinearHMM.getattr. cbn [of_option fmap py_fmap mret py_ret].
    unfold new_Normal, to_event. cbn [accepts].
    library_checks; reflexivity.
  - destruct (attr_obs_stability _ Hd (or_introl Hf)) as [st Hst]. rewrite Hst.
    exists (Independent (Stable (value st) (zeros k) (tmap (λ v, v / sqrt 2) scale)) 1).
    split; [flag_conjuncts|].
    intros lib. unfold StableLinearHMM.getattr. cbn [of_option fmap py_fmap mret py_ret].
    unfold new_Stable, to_event. cbn [accepts].
    fold root_two. library_checks; reflexivity.
  - destruct (attr_obs_nu _ Hd Hf) as [nu Hnu]. rewrite Hnu.
    exists (Independent (StudentT (value nu) (zeros k) scale) 1).
    split; [flag_conjuncts|].
    intros lib. unfold StableLinearHMM.getattr. cbn [of_option fmap py_fmap mret py_ret].
    unfold new_StudentT, to_event. cbn [accepts].
    library_checks; reflexivity.
  - destruct (attr_obs_stability _ Hd (or_intror Hf)) as [st Hst].
    destruct (attr_obs_skew _ Hd Hf) as [sk Hsk]. rewrite Hst, Hsk.
    exists (Independent (Stable (value st) (value sk) (tmap (λ v, v / sqrt 2) scale)) 1).
    split; [flag_conjuncts|].
    intros lib. unfold StableLinearHMM.getattr. cbn [of_option fmap py_fmap mret py_ret].
    unfold new_Stable, to_event. cbn [accepts].
    fold root_two. library_checks; reflexivity.
Qed.

(** What [get_dist] does on an instance whose attributes are in place:
    it hands the library one fixed LinearHMM [h], built from the flags, and
    returns [h] if every constructor accepts its arguments. *)
Lemma get_dist_spec self duration obs_scale :
  declared self →
  ∃ h, initial_dist h
       = Independent (Normal (zeros (StableLinearHMM.state_dim self))
                        (Some (ones (StableLinearHMM.state_dim self)))) 1
    ∧ trans_dist_follows_flag self (transition_dist h)
    ∧ obs_dist_follows_flag self obs_scale (observation_dist h)
    ∧ transition_matrix h = value (StableLinearHMM.trans_matrix self)
    ∧ observation_matrix h = value (StableLinearHMM.obs_matrix self)
    ∧ Solar.duration h = duration
    ∧ ∀ lib, StableLinearHMM.get_dist lib self duration obs_scale
             = (_ ← accepts_hmm lib h; mret h).
Proof.
  intros Hd.
  destruct (get_trans_dist_spec self Hd) as (dt & Htrans & Hdt).
  destruct (get_obs_dist_spec self obs_scale Hd) as (do & Hobs & Hdo).
  eexists {| initial_dist := _; transition_dist := dt; observation_dist := do |}.
  cbn [initial_dist transition_dist observation_dist transition_matrix
         observation_matrix Solar.duration].
  do 6 (split; [first [reflexivity | assumption]|]).
  intros lib. unfold StableLinearHMM.get_dist, accepts_hmm, new_LinearHMM.
  rewrite get_init_dist_spec, Hdt, Hdo.
  cbn [initial_dist transition_dist observation_dist].
  destruct (accepts lib (Independent (Normal _ _) 1)) as [?|[]]; [reflexivity|].
  cbn [mbind py_bind mret py_ret].
  destruct (accepts lib dt) as [?|[]]; [reflexivity|]. cbn [mbind py_bind mret py_ret].
  destruct (accepts lib do) as [?|[]]; [reflexivity|]. cbn [mbind py_bind mret py_ret].
  reflexivity.
Qed.

(** C3 (amended): for every instance built from flags in
    gaussian/stable/student/skew (and trained since), get_dist calls the
    library's constructors on fixed arguments: a standard Normal over
    state_dim dimensions for the initial distribution and, for the
    transition and observation noise, a zero-mean Normal for gaussian
    (observation scale from the obs_scale argument, transition scale from
    trans_noise_scale), a StudentT with the learned degrees of freedom for
    student, a Stable with zero skewness for stable and with the learned
    skewness for skew, both Stable cases with the learned scale divided by
    sqrt 2.  It returns the LinearHMM made of them exactly when the
    library accepts every one of these calls, and otherwise raises what
    the first rejecting constructor raises. *)
Theorem get_dist_follows_flags (self : StableLinearHMM.t) (duration : option nat)
    (obs_scale : option tensor) :
  StableLinearHMM.reachable self →
  ∃ h, initial_dist h
       = Independent (Normal (zeros (StableLinearHMM.state_dim self))
                        (Some (ones (StableLinearHMM.state_dim self)))) 1
    ∧ trans_dist_follows_flag self (transition_dist h)
    ∧ obs_dist_follows_flag self obs_scale (observation_dist h)
    ∧ transition_matrix h = value (StableLinearHMM.trans_matrix self)
    ∧ observation_matrix h = value (StableLinearHMM.obs_matrix self)
    ∧ Solar.duration h = duration
    ∧ ∀ lib, StableLinearHMM.get_dist lib self duration obs_scale
             = (_ ← accepts_hmm lib h; mret h).
Proof. intros Hd%reachable_declared. by apply get_dist_spec. Qed.

Lemma get_dist_follows_flags_witness :
  ∃ self,
    StableLinearHMM.__init__ 14 "skew" "gaussian" 3 [] [] = inr self
    ∧ ∃ h, initial_dist h
           = Independent (Normal (zeros (StableLinearHMM.state_dim self))
                            (Some (ones (StableLinearHMM.state_dim self)))) 1
      ∧ trans_dist_follows_flag self (transition_dist h)
      ∧ obs_dist_follows_flag self (Some (Matrix [[0.2]])) (observation_dist h)
      ∧ transition_matrix h = value (StableLinearHMM.trans_matrix self)
      ∧ observation_matrix h = value (StableLinearHMM.obs_matrix self)
      ∧ Solar.duration h = Some 48%nat
      ∧ ∀ lib, StableLinearHMM.get_dist lib self (Some 48%nat) (Some (Matrix [[0.2]]))
               = (_ ← accepts_hmm lib h; mret h).
Proof.
  eexists. split; [reflexivity|].
  apply (get_dist_follows_flags _ (Some 48%nat) (Some (Matrix [[0.2]]))).
  eapply (StableLinearHMM.reachable_init 14 "skew" "gaussian" 3 [] []). reflexivity.
Defined.

(** C3, as stated, fails when the observation noise is gaussian and
    get_dist is called without obs_scale (its default, None): the scale
    reaches Normal as None, Normal raises ValueError and no LinearHMM is
    returned. *)
Lemma get_dist_without_obs_scale_raises :
  ∃ self,
    StableLinearHMM.__init__ 14 "gaussian" "gaussian" 3 [] [] = inr self
    ∧ StableLinearHMM.get_dist checking_library self None None = inl ValueError.
Proof. eexists. split; reflexivity. Qed.

Example get_dist_duration_mismatch_raises :
  ∃ self,
    StableLinearHMM.__init__ 1 "gaussian" "gaussian" 3 [] [] = inr self
    ∧ StableLinearHMM.get_dist checking_library self (Some 25%nat)
        (Some (Matrix (replicate 24 [0.2]))) = inl ValueError.
Proof. eexists. split; reflexivity. Qed.

(** *** Constraint transforms *)

Lemma sigmoid_bounds (u : R) : 0 < sigmoid u < 1.
Proof.
  unfold sigmoid. pose proof (exp_pos (- u)) as He.
  assert (0 < 1 + exp (- u)) as Hpos by lra.
  split.
  - apply Rdiv_lt_0_compat; lra.
  - apply (Rmult_lt_reg_r (1 + exp (- u))); [lra|].
    unfold Rdiv. rewrite Rmult_assoc, Rinv_l by lra. lra.
Qed.

Lemma transform_to_positive (u : R) : 0 < transform_to positive u.
Proof. apply exp_pos. Qed.

Lemma transform_to_interval (lower upper u : R) :
  lower < upper → lower < transform_to (interval lower upper) u < upper.
Proof.
  intros Hlt. pose proof (sigmoid_bounds u) as [H0 H1].
  cbn [transform_to]. split; nra.
Qed.

Lemma all_entries_tmap (P : R → Prop) (f : R → R) (t : tensor) :
  (∀ u, P (f u)) → all_entries P (tmap f t).
Proof.
  intros H. destruct t as [v|v|m]; cbn [tmap all_entries].
  - apply H.
  - apply Forall_forall. intros e [u [<- _]]%list_elem_of_In%in_map_iff. apply H.
  - apply Forall_forall. intros r [r0 [<- _]]%list_elem_of_In%in_map_iff.
    apply Forall_forall. intros e [u [<- _]]%list_elem_of_In%in_map_iff. apply H.
Qed.

Lemma all_entries_impl (P Q : R → Prop) (t : tensor) :
  (∀ v, P v → Q v) → all_entries P t → all_entries Q t.
Proof.
  intros H. destruct t as [v|v|m]; cbn [all_entries].
  - apply H.
  - intros HP. eapply Forall_impl; [exact HP | exact H].
  - intros HP. eapply Forall_impl; [exact HP|].
    intros r Hr. eapply Forall_impl; [exact Hr | exact H].
Qed.

Lemma value_positive (p : PyroParam) :
  constraint_of p = positive → all_entries (λ v, 0 < v) (value p).
Proof.
  intros Hc. unfold value. rewrite Hc. apply all_entries_tmap, transform_to_positive.
Qed.

Lemma value_interval (lower upper : R) (a : option PyroParam) (p : PyroParam) :
  lower < upper → has_constraint (interval lower upper) a → a = Some p →
  all_entries (λ v, lower < v < upper) (value p).
Proof.
  intros Hlt Hc Hp. unfold value. rewrite (Hc p Hp).
  apply all_entries_tmap. intros u. by apply transform_to_interval.
Qed.

Lemma accepted_dist (lib : library) (d0 d : distribution) :
  (_ ← accepts lib d0; mret d0) = inr d → d = d0.
Proof.
  destruct (accepts lib d0) as [?|[]]; cbn [mbind py_bind mret py_ret];
    [discriminate | by intros [= ->]].
Qed.

Lemma trans_dist_stabilities lib self d :
  declared self → StableLinearHMM._get_trans_dist lib self = inr d →
  Forall stability_ok (stabilities d).
Proof.
  intros Hd Hget.
  destruct (get_trans_dist_spec self Hd) as (d0 & (Hg & Hs & Hst & Hsk) & Hspec).
  rewrite Hspec in Hget. apply accepted_dist in Hget as ->.
  destruct (flag_cases _ (decl_trans_flag _ Hd)) as [Hf|[Hf|[Hf|Hf]]].
  - rewrite (Hg Hf). constructor.
  - destruct (Hst Hf) as (st & Hpst & ->). cbn. constructor; [|constructor].
    apply (value_interval 1.01 1.99 _ _ ltac:(lra) (decl_trans_stability _ Hd) Hpst).
  - destruct (Hs Hf) as (nu & _ & ->). constructor.
  - destruct (Hsk Hf) as (st & sk & Hpst & _ & ->). cbn. constructor; [|constructor].
    apply (value_interval 1.01 1.99 _ _ ltac:(lra) (decl_trans_stability _ Hd) Hpst).
Qed.

Lemma obs_dist_stabilities lib self obs_scale d :
  declared self → StableLinearHMM._get_obs_dist lib self obs_scale = inr d →
  Forall stability_ok (stabilities d).
Proof.
  intros Hd Hget.
  destruct (get_obs_dist_spec self obs_scale Hd) as (d0 & (Hg & Hs & Hst & Hsk) & Hspec).
  rewrite Hspec in Hget. apply accepted_dist in Hget as ->.
  destruct (flag_cases _ (decl_obs_flag _ Hd)) as [Hf|[Hf|[Hf|Hf]]].
  - rewrite (Hg Hf). constructor.
  - destruct (Hst Hf) as (st & Hpst & ->). cbn. constructor; [|constructor].
    apply (value_interval 1.01 1.99 _ _ ltac:(lra) (decl_obs_stability _ Hd) Hpst).
  - destruct (Hs Hf) as (nu & _ & ->). constructor.
  - destruct (Hsk Hf) as (st & sk & Hpst & _ & ->). cbn. constructor; [|constructor].
    apply (value_interval 1.01 1.99 _ _ ltac:(lra) (decl_obs_stability _ Hd) Hpst).
Qed.

(** C9: every instance that exists at run time, freshly constructed or
    after any number of training steps, reads its parameters inside their
    constraint sets: both noise scales are strictly positive, every
    stability lies in (1.01, 1.99), every skewness in (-0.99, 0.99), every
    Student-t degrees-of-freedom in (1.01, 30.0); so every Stable
    distribution inside a LinearHMM returned by get_dist has a stability
    index strictly between 1 and 2. *)
Theorem parameters_stay_constrained (self : StableLinearHMM.t) :
  StableLinearHMM.reachable self →
  within_constraints self ∧ stable_indices_in_range self.
Proof.
  intros Hd%reachable_declared. split.
  - unfold within_constraints.
    split; [apply value_positive, Hd|].
    split; [apply value_positive, Hd|].
    split; [|split]; intros p [Hp|Hp].
    + apply (value_interval 1.01 1.99 _ _ ltac:(lra) (decl_trans_stability _ Hd) Hp).
    + apply (value_interval 1.01 1.99 _ _ ltac:(lra) (decl_obs_stability _ Hd) Hp).
    + apply (value_interval (-0.99) 0.99 _ _ ltac:(lra) (decl_trans_skew _ Hd) Hp).
    + apply (value_interval (-0.99) 0.99 _ _ ltac:(lra) (decl_obs_skew _ Hd) Hp).
    + apply (value_interval 1.01 30.0 _ _ ltac:(lra) (decl_trans_nu _ Hd) Hp).
    + apply (value_interval 1.01 30.0 _ _ ltac:(lra) (decl_obs_nu _ Hd) Hp).
  - intros lib duration obs_scale h. unfold StableLinearHMM.get_dist.
    rewrite get_init_dist_spec.
    destruct (accepts lib (Independent (Normal _ _) 1)) as [?|[]]; [discriminate|].
    cbn [mbind py_bind mret py_ret].
    destruct (StableLinearHMM._get_trans_dist lib self) as [|dt] eqn:Hdt; [discriminate|].
    destruct (StableLinearHMM._get_obs_dist lib self obs_scale) as [|do] eqn:Hdo;
      [discriminate|].
    cbn [mbind py_bind mret py_ret]. unfold new_LinearHMM.
    destruct (LinearHMM_check lib _) as [?|[]]; [discriminate|].
    cbn [mbind py_bind mret py_ret]. intros [= <-].
    unfold hmm_stabilities. cbn [initial_dist transition_dist observation_dist].
    cbn [stabilities app].
    apply Forall_app. split.
    + eapply Forall_impl; [apply (trans_dist_stabilities lib self dt Hd Hdt)|].
      intros t. apply all_entries_impl. intros v. lra.
    + eapply Forall_impl; [apply (obs_dist_stabilities lib self obs_scale do Hd Hdo)|].
      intros t. apply all_entries_impl. intros v. lra.
Qed.

Lemma parameters_stay_constrained_witness :
  ∃ self,
    StableLinearHMM.__init__ 2 "skew" "student" 3 [] [] = inr self
    ∧ within_constraints (StableLinearHMM.optimizer_step (λ _, tmap (Rplus 40)) self)
    ∧ stable_indices_in_range (StableLinearHMM.optimizer_step (λ _, tmap (Rplus 40)) self).
Proof.
  eexists. split; [reflexivity|].
  apply parameters_stay_constrained.
  apply StableLinearHMM.reachable_step.
  eapply (StableLinearHMM.reachable_init 2 "skew" "student" 3 [] []). reflexivity.
Defined.

(** *** The evaluation loop of [main] *)

Lemma metric_values_spec (name : string) (metrics : list (gmap string R)) :
  Forall (λ m, is_Some (m !! name)) metrics →
  ∃ values, metric_values name metrics = inr values
    ∧ Forall2 (λ m v, m !! name = Some v) metrics values.
Proof.
  induction 1 as [|m metrics [v Hv] _ (values & Hvalues & Hall)].
  - exists []. split; [done | constructor].
  - exists (v :: values). cbn [metric_values]. rewrite Hv, Hvalues.
    split; [done | by constructor].
Qed.

(** C7: the loop over exactly the names mae and crps collects the metric
    of every window result, stores its arithmetic mean under the name and
    its standard deviation under the name followed by _std, logs both, and
    leaves no other key in the results dictionary. *)
Theorem evaluation_aggregates_mae_crps (metrics : list (gmap string R)) :
  Forall (λ m, is_Some (m !! "mae") ∧ is_Some (m !! "crps")) metrics →
  ∃ mae crps results log,
    Forall2 (λ m v, m !! "mae" = Some v) metrics mae
    ∧ Forall2 (λ m v, m !! "crps" = Some v) metrics crps
    ∧ main_evaluation metrics = inr (results, log)
    ∧ results !! "mae" = Some (np_mean mae)
    ∧ results !! "mae_std" = Some (np_std mae)
    ∧ results !! "crps" = Some (np_mean crps)
    ∧ results !! "crps_std" = Some (np_std crps)
    ∧ dom results = {[ "mae"; "mae_std"; "crps"; "crps_std" ]}
    ∧ log = [LogLine "mae" (np_mean mae) (np_std mae);
             LogLine "crps" (np_mean crps) (np_std crps)].
Proof.
  intros Hkeys.
  destruct (metric_values_spec "mae" metrics) as (mae & Hmae & Hmae_all).
  { eapply Forall_impl; [exact Hkeys|]. by intros m [? _]. }
  destruct (metric_values_spec "crps" metrics) as (crps & Hcrps & Hcrps_all).
  { eapply Forall_impl; [exact Hkeys|]. by intros m [_ ?]. }
  exists mae, crps. eexists _, _.
  split; [exact Hmae_all|]. split; [exact Hcrps_all|].
  unfold main_evaluation. cbn [evaluation_loop]. rewrite Hmae.
  cbn [mbind py_bind]. rewrite Hcrps. cbn [mbind py_bind mret py_ret app].
  split; [reflexivity|].
  change ("mae" +:+ "_std") with "mae_std".
  change ("crps" +:+ "_std") with "crps_std".
  split; [by rewrite !lookup_insert_ne by done; rewrite lookup_insert_eq|].
  split; [by rewrite !lookup_insert_ne by done; rewrite lookup_insert_eq|].
  split; [by rewrite !lookup_insert_ne by done; rewrite lookup_insert_eq|].
  split; [by rewrite lookup_insert_eq|].
  split; [|reflexivity].
  rewrite !dom_insert_L, dom_empty_L. set_solver.
Qed.

Lemma evaluation_aggregates_mae_crps_witness :
  ∃ mae crps results log,
    Forall2 (λ m v, m !! "mae" = Some v)
      [({[ "mae" := 1%R; "crps" := 2%R; "rmse" := 3%R ]} : gmap string R)] mae
    ∧ Forall2 (λ m v, m !! "crps" = Some v)
      [({[ "mae" := 1%R; "crps" := 2%R; "rmse" := 3%R ]} : gmap string R)] crps
    ∧ main_evaluation [{[ "mae" := 1%R; "crps" := 2%R; "rmse" := 3%R ]}]
      = inr (results, log)
    ∧ results !! "mae" = Some (np_mean mae)
    ∧ results !! "mae_std" = Some (np_std mae)
    ∧ results !! "crps" = Some (np_mean crps)
    ∧ results !! "crps_std" = Some (np_std crps)
    ∧ dom results = {[ "mae"; "mae_std"; "crps"; "crps_std" ]}
    ∧ log = [LogLine "mae" (np_mean mae) (np_std mae);
             LogLine "crps" (np_mean crps) (np_std crps)].
Proof.
  apply (evaluation_aggregates_mae_crps [{[ "mae" := 1%R; "crps" := 2%R; "rmse" := 3%R ]}]).
  apply Forall_cons; split; [|apply Forall_nil_2].
  split; eexists; reflexivity.
Defined.

(** *** The validation/test split of [main] *)

Lemma ceil_080_unfold (k : Z) : ceil_080 k = (- ((- (80 * k)) `div` 100))%Z.
Proof. reflexivity. Qed.

(** [ceil_080 k] is the least integer that is at least four fifths of [k]. *)
Lemma ceil_080_spec (k : Z) : (5 * ceil_080 k - 5 < 4 * k ≤ 5 * ceil_080 k)%Z.
Proof.
  rewrite ceil_080_unfold.
  pose proof (Z.div_mod (- (80 * k)) 100 ltac:(lia)) as Hdm.
  pose proof (Z.mod_pos_bound (- (80 * k)) 100 ltac:(lia)) as Hmod.
  lia.
Qed.

Example ceil_080_values : ceil_080 1 = 1%Z ∧ ceil_080 5 = 4%Z ∧ ceil_080 6 = 5%Z.
Proof. repeat split. Qed.

Example slice_negative :
  slice_to (-1) [1; 2; 3]%nat = [1; 2]%nat ∧ slice_from 2 [1; 2; 3]%nat = [3]%nat.
Proof. split; reflexivity. Qed.

Lemma slice_to_nonneg {A} (k : Z) (l : list A) :
  (0 ≤ k)%Z → slice_to k l = take (Z.to_nat k) l.
Proof. intros H. unfold slice_to. by rewrite bool_decide_eq_false_2 by lia. Qed.

Lemma slice_from_nonneg {A} (k : Z) (l : list A) :
  (0 ≤ k)%Z → slice_from k l = drop (Z.to_nat k) l.
Proof. intros H. unfold slice_from. by rewrite bool_decide_eq_false_2 by lia. Qed.

(** C10: the split does not depend on the seed argument nor on what
    backtest did to the generator, because the generator is reseeded to 0
    before the permutation is drawn: two runs with the same num_windows and
    test_window get the same index_test and index_val.  With
    n = (num_windows - 1) * test_window + 1, a run either stops in
    randperm (n negative) or index_test and index_val are disjoint, free of
    repeats, cover exactly 0 .. n-1, and index_test has ceil(0.80 * n)
    elements. *)
Theorem split_is_seed_independent_partition {generator : Type}
    (set_rng_seed : Z → generator) (backtest_rng backtest_rng' : args → generator → generator)
    (randperm_draw : generator → nat → list nat) (a a' : args) :
  (∀ g k, randperm_draw g k ≡ₚ seq 0 k) →
  num_windows a' = num_windows a → test_window a' = test_window a →
  let n := ((num_windows a - 1) * test_window a + 1)%Z in
  main_split set_rng_seed backtest_rng' randperm_draw a'
    = main_split set_rng_seed backtest_rng randperm_draw a
  ∧ (((n < 0)%Z ∧ main_split set_rng_seed backtest_rng randperm_draw a = inl RuntimeError)
     ∨ ((0 ≤ n)%Z ∧ ∃ index_test index_val,
          main_split set_rng_seed backtest_rng randperm_draw a = inr (index_test, index_val)
          ∧ (∀ i, (i < Z.to_nat n)%nat ↔ i ∈ index_test ∨ i ∈ index_val)
          ∧ (∀ i, i ∈ index_test → i ∉ index_val)
          ∧ NoDup index_test ∧ NoDup index_val
          ∧ Z.of_nat (length index_test) = ceil_080 n
          ∧ (5 * ceil_080 n - 5 < 4 * n ≤ 5 * ceil_080 n)%Z)).
Proof.
  intros Hperm Hnw Htw n. split.
  { unfold main_split. by rewrite Hnw, Htw. }
  unfold main_split, randperm. fold n.
  destruct (decide (n < 0)%Z) as [Hneg|Hpos].
  { left. by rewrite bool_decide_eq_true_2. }
  right. split; [lia|]. rewrite bool_decide_eq_false_2 by done.
  cbn [mbind py_bind mret py_ret].
  pose proof (ceil_080_spec n) as Hceil.
  set (index := randperm_draw (set_rng_seed 0%Z) (Z.to_nat n)).
  assert (Hindex : index ≡ₚ seq 0 (Z.to_nat n)) by apply Hperm.
  rewrite slice_to_nonneg, slice_from_nonneg by lia.
  eexists _, _. split; [reflexivity|].
  assert (Hnodup : NoDup (take (Z.to_nat (ceil_080 n)) index
                          ++ drop (Z.to_nat (ceil_080 n)) index)).
  { rewrite take_drop, Hindex. apply NoDup_seq. }
  apply NoDup_app in Hnodup as (Htest & Hdisj & Hval).
  split.
  { intros i. rewrite <- elem_of_app, take_drop, Hindex, elem_of_seq. lia. }
  split; [exact Hdisj|]. split; [exact Htest|]. split; [exact Hval|].
  split; [|exact Hceil].
  rewrite length_take.
  assert (length index = Z.to_nat n) as -> by (by rewrite Hindex, length_seq).
  lia.
Qed.

Lemma split_is_seed_independent_partition_witness :
  let a := {| trans_noise := "gaussian"; obs_noise := "gaussian"; dataset := "solar";
              data_dir := "./data/"; train_window := 48; test_window := 3;
              num_windows := 4; state_dim := 6; seed := 0 |} in
  let a' := {| trans_noise := "stable"; obs_noise := "gaussian"; dataset := "solar";
               data_dir := "./data/"; train_window := 24; test_window := 3;
               num_windows := 4; state_dim := 6; seed := 17 |} in
  let draw := λ (g : Z) (k : nat), rev (seq 0%nat k) in
  let n := 10%Z in
  main_split (λ s, s) (λ _ g, (g + 1)%Z) draw a' = main_split (λ s, s) (λ _ g, (g * 2)%Z) draw a
  ∧ (((n < 0)%Z ∧ main_split (λ s, s) (λ _ g, (g * 2)%Z) draw a = inl RuntimeError)
     ∨ ((0 ≤ n)%Z ∧ ∃ index_test index_val,
          main_split (λ s, s) (λ _ g, (g * 2)%Z) draw a = inr (index_test, index_val)
          ∧ (∀ i, (i < Z.to_nat n)%nat ↔ i ∈ index_test ∨ i ∈ index_val)
          ∧ (∀ i, i ∈ index_test → i ∉ index_val)
          ∧ NoDup index_test ∧ NoDup index_val
          ∧ Z.of_nat (length index_test) = ceil_080 n
          ∧ (5 * ceil_080 n - 5 < 4 * n ≤ 5 * ceil_080 n)%Z)).
Proof.
  intros a a' draw n.
  apply (split_is_seed_independent_partition (λ s, s) (λ _ g, (g * 2)%Z) (λ _ g, (g + 1)%Z)
           draw a a');
    [|reflexivity|reflexivity].
  intros g k. symmetry. apply Permutation_rev.
Defined.

(** *** Columnwise standardisation in [get_data] *)

Lemma Rsum_shift (c : R) (l : list R) :
  Rsum (map (λ e, e - c) l) = Rsum l - INR (length l) * c.
Proof.
  induction l as [|e l IH]; [simpl; lra|].
  rewrite map_cons, !Rsum_cons, IH. cbn [length]. rewrite S_INR. lra.
Qed.

Lemma mean_shift (c : R) (l : list R) :
  l ≠ [] → mean (map (λ e, e - c) l) = mean l - c.
Proof.
  intros Hl. unfold mean. rewrite Rsum_shift, length_map.
  assert (INR (length l) ≠ 0) as Hn.
  { apply not_0_INR. destruct l; [done | simpl; lia]. }
  field. exact Hn.
Qed.

(** Subtracting a constant from a column does not change its deviation. *)
Lemma std_shift (c : R) (l : list R) : std (map (λ e, e - c) l) = std l.
Proof.
  destruct l as [|e0 l]; [reflexivity|].
  unfold std. rewrite mean_shift by done. rewrite length_map, map_map.
  do 3 f_equal. apply map_ext. intros e. ring.
Qed.

Lemma rectangular_row (d : list (list R)) (r : list R) :
  rectangular d → r ∈ d → length r = ncols d.
Proof. intros Hd Hr. exact (proj1 (Forall_forall _ _) Hd r Hr). Qed.

Lemma rectangular_take (k : nat) (d : list (list R)) :
  rectangular d → rectangular (take k d).
Proof.
  unfold rectangular. intros Hd.
  destruct k as [|k]; [constructor|]. destruct d as [|r d]; [constructor|].
  change (ncols (take (S k) (r :: d))) with (ncols (r :: d)).
  by apply Forall_take.
Qed.

Lemma length_mean0 (d : list (list R)) : length (mean0 d) = ncols d.
Proof. unfold mean0. by rewrite length_map, length_seq. Qed.

Lemma lookup_mean0 (d : list (list R)) (j : nat) :
  (j < ncols d)%nat → mean0 d !! j = Some (mean (column j d)).
Proof. intros Hj. unfold mean0. by rewrite list_lookup_fmap, lookup_seq_lt. Qed.

Lemma lookup_std0 (d : list (list R)) (j : nat) :
  (j < ncols d)%nat → std0 d !! j = Some (std (column j d)).
Proof. intros Hj. unfold std0. by rewrite list_lookup_fmap, lookup_seq_lt. Qed.

Lemma ncols_sub_rows (d : list (list R)) (row : list R) :
  length row = ncols d → ncols (sub_rows d row) = ncols d.
Proof.
  destruct d as [|r d]; [done|]. cbn [sub_rows map ncols]. intros Hrow.
  rewrite length_zip_with. lia.
Qed.

Lemma column_sub_rows (d : list (list R)) (row : list R) (j : nat) :
  rectangular d → length row = ncols d → (j < ncols d)%nat →
  column j (sub_rows d row) = map (λ e, e - nth j row 0) (column j d).
Proof.
  intros Hd Hrow Hj. unfold column, sub_rows. rewrite !map_map.
  apply map_ext_in. intros r Hr%list_elem_of_In.
  pose proof (rectangular_row d r Hd Hr) as Hlen.
  destruct (lookup_lt_is_Some_2 r j ltac:(lia)) as [e He].
  destruct (lookup_lt_is_Some_2 row j ltac:(lia)) as [c Hc].
  rewrite (nth_lookup_Some r j 0 e He), (nth_lookup_Some row j 0 c Hc).
  apply nth_lookup_Some. by rewrite lookup_zip_with, He, Hc.
Qed.

(** The two in-place updates of [get_data] standardise every column. *)
Lemma centre_then_scale (d : list (list R)) :
  rectangular d →
  div_rows (sub_rows d (mean0 d)) (std0 (sub_rows d (mean0 d))) = standardize d.
Proof.
  intros Hd.
  set (s := std0 (sub_rows d (mean0 d))).
  unfold div_rows, sub_rows, standardize. rewrite map_map.
  apply map_ext_in. intros r Hr%list_elem_of_In.
  pose proof (rectangular_row d r Hd Hr) as Hlen.
  pose proof (ncols_sub_rows d (mean0 d) (length_mean0 d)) as Hcols.
  apply list_eq. intros j.
  rewrite !lookup_zip_with, list_lookup_imap.
  destruct (decide (j < ncols d)%nat) as [Hj|Hj].
  - destruct (lookup_lt_is_Some_2 r j ltac:(lia)) as [e He].
    unfold s. rewrite He, (lookup_mean0 d j Hj), lookup_std0 by lia. cbn.
    rewrite (column_sub_rows d (mean0 d) j Hd (length_mean0 d) Hj), std_shift.
    reflexivity.
  - by rewrite (lookup_ge_None_2 r j) by lia.
Qed.

Lemma constant_features_contract : features_contract constant_features.
Proof.
  split; [|reflexivity]. intros [|k] Hk; [lia|].
  eexists. split; [reflexivity|]. apply length_replicate.
Qed.


Lemma length_standardized (d : list (list R)) :
  length (div_rows (sub_rows d (mean0 d)) (std0 (sub_rows d (mean0 d)))) = length d.
Proof. unfold div_rows, sub_rows. by rewrite !length_map. Qed.




End SolarFacts.

(** * Further properties of the censored time-to-event script *)

Section CensoredExtras.
Import Censored.
Local Open Scope R_scope.

Lemma softplus_pos (v : R) : 0 < softplus v.
Proof.
  unfold softplus. rewrite <- ln_1.
  apply ln_increasing; [lra|]. pose proof (exp_pos v). lra.
Qed.

(** X1: the link tensor of both models (and of the data generation) is
    strictly positive in every entry, so every exponential rate 1 / link is
    a strictly positive number. *)
Theorem link_and_rate_positive (a_model b_model : R) (x : list R) :
  Forall (λ l, 0 < l ∧ 0 < 1 / l) (link_of a_model b_model x)
  ∧ Forall (λ l, 0 < l ∧ 0 < 1 / l) (data_link x).
Proof.
  assert (∀ p q, Forall (λ l, 0 < l ∧ 0 < 1 / l)
                   (map (λ xi, softplus (p * xi + q)) x)) as H.
  { intros p q. apply Forall_forall.
    intros l [xi [<- _]]%list_elem_of_In%in_map_iff.
    pose proof (softplus_pos (p * xi + q)) as Hpos.
    split; [exact Hpos|]. apply Rdiv_lt_0_compat; lra. }
  split; apply H.
Qed.

(** X2: the probability handed to Bernoulli for a censored point,
    1 - cdf(y), is exp(-y / link); it is strictly positive, and at most 1
    when y is not negative. *)
Theorem truncation_prob_is_probability (a_model b_model xi y : R) :
  0 <= y →
  let rate := 1 / softplus (a_model * xi + b_model) in
  1 - Exponential_cdf rate y = exp (- (y / softplus (a_model * xi + b_model)))
  ∧ 0 < 1 - Exponential_cdf rate y <= 1.
Proof.
  intros Hy rate. pose proof (softplus_pos (a_model * xi + b_model)) as Hpos.
  assert (1 - Exponential_cdf rate y
          = exp (- (y / softplus (a_model * xi + b_model)))) as ->.
  { unfold Exponential_cdf, rate. replace (1 - (1 - exp (- (1 / softplus (a_model * xi + b_model)) * y)))
      with (exp (- (1 / softplus (a_model * xi + b_model)) * y)) by lra.
    f_equal. field. lra. }
  split; [reflexivity|]. split; [apply exp_pos|].
  rewrite <- exp_0. destruct (Req_dec y 0) as [->|Hne].
  - right. f_equal. unfold Rdiv. ring.
  - left. apply exp_increasing.
    assert (0 < y / softplus (a_model * xi + b_model)) by (apply Rdiv_lt_0_compat; lra).
    lra.
Qed.

Lemma truncation_prob_is_probability_witness :
  let rate := 1 / softplus (2 * 0 + 4) in
  1 - Exponential_cdf rate 8 = exp (- (8 / softplus (2 * 0 + 4)))
  ∧ 0 < 1 - Exponential_cdf rate 8 <= 1.
Proof. apply (truncation_prob_is_probability 2 4 0 8). lra. Defined.

(** *** Sites recorded by the first model *)

Lemma model_loop_names a_model b_model (x y label : list R) (idx : list nat) (tr : trace) :
  length y = length x → length label = length x →
  Forall (λ i, (i < length x)%nat) idx →
  ∃ tr', model_loop (link_of a_model b_model x) y label idx tr = inr tr'
    ∧ map site_name tr' = map site_name tr ++ map (loop_site_name label) idx.
Proof.
  intros Hy Hl Hidx. revert tr.
  induction Hidx as [|i idx Hi _ IH]; intros tr.
  - exists tr. split; [done|]. by rewrite app_nil_r.
  - destruct (lookup_lt_is_Some_2 x i Hi) as [xi Hxi].
    destruct (lookup_lt_is_Some_2 y i ltac:(lia)) as [yi Hyi].
    destruct (lookup_lt_is_Some_2 label i ltac:(lia)) as [li Hli].
    cbn [model_loop]. unfold getitem.
    rewrite (link_of_lookup _ _ _ _ _ Hxi), Hli, Hyi.
    cbn [of_option mbind py_bind mret py_ret].
    rewrite map_cons. unfold loop_site_name at 1.
    rewrite (nth_lookup_Some _ _ 0 _ Hli).
    destruct (decide (li = 0)) as [Hz|Hz].
    + destruct (IH (sample_obs ("obs_" +:+ pretty i)
        (Exponential_log_prob (1 / softplus (a_model * xi + b_model)) yi) tr))
        as (tr' & -> & Hnames).
      exists tr'. split; [done|]. rewrite Hnames. unfold sample_obs.
      rewrite map_app. cbn [map site_name]. by rewrite <- app_assoc.
    + destruct (IH (sample_obs ("truncation_label_" +:+ pretty i)
        (Bernoulli_log_prob
           (1 - Exponential_cdf (1 / softplus (a_model * xi + b_model)) yi) li) tr))
        as (tr' & -> & Hnames).
      exists tr'. split; [done|]. rewrite Hnames. unfold sample_obs.
      rewrite map_app. cbn [map site_name]. by rewrite <- app_assoc.
Qed.

Lemma loop_site_name_inj (label : list R) (i j : nat) :
  loop_site_name label i = loop_site_name label j → i = j.
Proof.
  unfold loop_site_name.
  destruct (decide (nth i label 0 = 0)), (decide (nth j label 0 = 0));
    cbn; intros H; try discriminate; injection H as H;
    by apply (inj pretty).
Qed.

Lemma loop_site_name_not_latent (label : list R) (i : nat) :
  loop_site_name label i ≠ "a_model" ∧ loop_site_name label i ≠ "b_model".
Proof.
  unfold loop_site_name.
  destruct (decide (nth i label 0 = 0)); cbn; split; discriminate.
Qed.

(** X3: on equally long tensors the first model records the two latent
    sites followed by one observed site per data point, named obs_i for
    label 0 and truncation_label_i otherwise, and no two sites of the trace
    share a name. *)
Theorem sequential_sites_are_distinct (a_model b_model : R) (x y label : list R) :
  length y = length x → length label = length x →
  ∃ tr, model_sequential a_model b_model x y label = inr tr
    ∧ map site_name tr
      = ["a_model"; "b_model"] ++ map (loop_site_name label) (seq 0 (length x))
    ∧ length tr = (length x + 2)%nat
    ∧ NoDup (map site_name tr).
Proof.
  intros Hy Hl.
  destruct (model_loop_names a_model b_model x y label (seq 0 (length x))
    (sample_latent "b_model" (Normal_log_prob 0 10 b_model)
       (sample_latent "a_model" (Normal_log_prob 0 10 a_model) [])) Hy Hl)
    as (tr & Htr & Hnames).
  { apply Forall_seq. intros; lia. }
  exists tr. split; [exact Htr|].
  assert (Hn : map site_name tr
               = ["a_model"; "b_model"] ++ map (loop_site_name label) (seq 0 (length x))).
  { rewrite Hnames. reflexivity. }
  split; [exact Hn|]. split.
  { rewrite <- (length_map site_name tr), Hn, length_app, length_map, length_seq.
    simpl. lia. }
  rewrite Hn. apply NoDup_app. split; [|split].
  - apply NoDup_cons. split; [|apply NoDup_singleton].
    rewrite list_elem_of_singleton. discriminate.
  - intros name Hname [i [<- _]]%list_elem_of_In%in_map_iff.
    destruct (loop_site_name_not_latent label i) as [Ha Hb].
    rewrite !elem_of_cons, elem_of_nil in Hname. intuition congruence.
  - apply (NoDup_fmap_2_strong (loop_site_name label)); [|apply NoDup_seq].
    intros i j _ _. apply loop_site_name_inj.
Qed.

Lemma sequential_sites_are_distinct_witness :
  ∃ tr, model_sequential 2 4 [0; 1] [3; 8] [0; 1] = inr tr
    ∧ map site_name tr
      = ["a_model"; "b_model"] ++ map (loop_site_name [0; 1]) (seq 0 (length [0; 1]))
    ∧ length tr = (length [0; 1] + 2)%nat
    ∧ NoDup (map site_name tr).
Proof.
  apply (sequential_sites_are_distinct 2 4 [0; 1] [3; 8] [0; 1]); reflexivity.
Defined.

(** *** Tensors of different lengths *)

Lemma model_loop_raises (link y label : list R) (idx : list nat) (tr : trace) :
  Exists (λ i, (length y ≤ i)%nat ∨ (length label ≤ i)%nat) idx →
  model_loop link y label idx tr = inl IndexError.
Proof.
  intros Hbad. revert tr. induction idx as [|i idx IH]; intros tr.
  { by apply Exists_nil in Hbad. }
  cbn [model_loop]. unfold getitem.
  destruct (link !! i) as [li|]; [|done].
  destruct (label !! i) as [lab|] eqn:Hlab; [|done].
  destruct (y !! i) as [yi|] eqn:Hyi;
    [|cbn [of_option mbind py_bind mret py_ret]; by destruct (decide (lab = 0))].
  apply Exists_cons in Hbad as [Hhead|Htail].
  { apply lookup_lt_Some in Hlab. apply lookup_lt_Some in Hyi. lia. }
  cbn [of_option mbind py_bind mret py_ret].
  destruct (decide (lab = 0)); by apply IH.
Qed.

(** X4: when y or the label tensor is shorter than x, the loop of the
    first model indexes past its end and the model raises IndexError. *)
Theorem sequential_short_tensor_raises (a_model b_model : R) (x y label : list R) :
  (length y < length x)%nat ∨ (length label < length x)%nat →
  model_sequential a_model b_model x y label = inl IndexError.
Proof.
  intros Hshort. unfold model_sequential. apply model_loop_raises.
  apply Exists_exists.
  destruct Hshort as [H|H]; [exists (length y) | exists (length label)];
    (split; [apply elem_of_seq; lia | lia]).
Qed.

Lemma sequential_short_tensor_raises_witness :
  model_sequential 2 4 [0; 1] [3] [0; 1] = inl IndexError.
Proof. apply (sequential_short_tensor_raises 2 4 [0; 1] [3] [0; 1]). left. simpl. lia. Defined.

Lemma model_loop_ext (link y y' label label' : list R) (idx : list nat) (tr : trace) :
  Forall (λ i, y !! i = y' !! i ∧ label !! i = label' !! i) idx →
  model_loop link y label idx tr = model_loop link y' label' idx tr.
Proof.
  intros Hsame. revert tr. induction Hsame as [|i idx [Hy Hl] _ IH]; intros tr; [done|].
  cbn [model_loop]. unfold getitem. rewrite Hy, Hl.
  destruct (link !! i) as [li|]; [|done].
  destruct (label' !! i) as [lab|]; [|done].
  destruct (y' !! i) as [yi|];
    cbn [of_option mbind py_bind mret py_ret]; destruct (decide (lab = 0)); try done;
    apply IH.
Qed.

(** X5: the first model reads y and the labels only at the indices of x:
    entries beyond len(x) never change its trace. *)
Theorem sequential_ignores_extra_entries (a_model b_model : R)
    (x y label extra_y extra_label : list R) :
  length y = length x → length label = length x →
  model_sequential a_model b_model x (y ++ extra_y) (label ++ extra_label)
  = model_sequential a_model b_model x y label.
Proof.
  intros Hy Hl. unfold model_sequential. apply model_loop_ext.
  apply Forall_seq. intros i Hi.
  split; apply lookup_app_l; lia.
Qed.

Lemma sequential_ignores_extra_entries_witness :
  model_sequential 2 4 [0; 1] ([3; 8] ++ [5]) ([0; 1] ++ [0; 0])
  = model_sequential 2 4 [0; 1] [3; 8] [0; 1].
Proof.
  apply (sequential_ignores_extra_entries 2 4 [0; 1] [3; 8] [0; 1] [5] [0; 0]);
    reflexivity.
Defined.

Lemma broadcast2_mismatch {A B C} (f : A → B → C) (u : list A) (v : list B) :
  length u ≠ length v → length u ≠ 1%nat → length v ≠ 1%nat →
  broadcast2 f u v = inl RuntimeError.
Proof.
  intros Hne Hu Hv. unfold broadcast2. rewrite decide_False by done.
  destruct u as [|u0 [|u1 u]], v as [|v0 [|v1 v]]; simpl in *; done.
Qed.

(** X6: the second model rejects shapes that cannot be broadcast: when x
    and y have different lengths and neither has length one, it raises
    RuntimeError, also where the first model would return. *)
Theorem vectorized_shape_mismatch_raises (a_model b_model : R) (x y label : list R) :
  length y ≠ length x → length x ≠ 1%nat → length y ≠ 1%nat →
  model_vectorized a_model b_model x y label = inl RuntimeError.
Proof.
  intros Hne Hx Hy. unfold model_vectorized.
  rewrite (broadcast2_mismatch Exponential_log_prob); [done|..|done];
    unfold link_of; rewrite !length_map; congruence.
Qed.

Lemma vectorized_shape_mismatch_raises_witness :
  model_vectorized 2 4 [0; 1] [3; 8; 5] [0; 1; 0] = inl RuntimeError.
Proof.
  apply (vectorized_shape_mismatch_raises 2 4 [0; 1] [3; 8; 5] [0; 1; 0]); simpl; lia.
Defined.

(** *** Labels other than 0 and 1 *)

Lemma model_vectorized_observed (a_model b_model : R) (x y label : list R) :
  length y = length x → length label = length x →
  ∃ tr, model_vectorized a_model b_model x y label = inr tr
    ∧ observed_log_density tr = censored_log_density a_model b_model x y label.
Proof.
  intros Hy Hl. unfold model_vectorized.
  set (rate := map (λ l, 1 / l) (link_of a_model b_model x)).
  assert (Hrate : length rate = length y).
  { unfold rate, link_of. rewrite !length_map. lia. }
  rewrite (broadcast2_same_length Exponential_log_prob rate y Hrate).
  rewrite (broadcast2_same_length Exponential_cdf rate y Hrate).
  cbn [mbind py_bind].
  rewrite (broadcast2_same_length mask_fill)
    by (rewrite !length_map, length_zip_with; lia).
  cbn [mbind py_bind].
  rewrite (broadcast2_same_length mask_fill)
    by (rewrite !length_map, length_zip_with; lia).
  cbn [mbind py_bind mret py_ret].
  eexists. split; [reflexivity|].
  assert (Hrate_i : ∀ i r, rate !! i = Some r → r = rate_at a_model b_model x i).
  { intros i r. unfold rate, link_of, rate_at.
    rewrite !list_lookup_fmap. destruct (x !! i) as [xi|] eqn:Hxi; [|done].
    rewrite (nth_lookup_Some _ _ 0 _ Hxi). simpl. congruence. }
  assert (Hy_i : ∀ i v, y !! i = Some v → v = nth i y 0).
  { intros i v H. by rewrite (nth_lookup_Some _ _ 0 _ H). }
  rewrite !observed_sample_obs, !observed_sample_latent.
  rewrite (masked_sum_index label _ 0
    (λ i, Exponential_log_prob (rate_at a_model b_model x i) (nth i y 0))).
  2:{ rewrite length_zip_with; lia. }
  2:{ intros i v. rewrite lookup_zip_with.
      destruct (rate !! i) as [r|] eqn:Hr; [|done].
      destruct (y !! i) as [yi|] eqn:Hyi; [|done]. simpl.
      rewrite (Hrate_i _ _ Hr), (Hy_i _ _ Hyi). congruence. }
  rewrite (masked_sum_index label _ 1
    (λ i, ln (1 - Exponential_cdf (rate_at a_model b_model x i) (nth i y 0)))).
  2:{ rewrite !length_map, length_zip_with; lia. }
  2:{ intros i v. rewrite !list_lookup_fmap, lookup_zip_with.
      destruct (rate !! i) as [r|] eqn:Hr; [|done].
      destruct (y !! i) as [yi|] eqn:Hyi; [|done]. simpl.
      rewrite (Hrate_i _ _ Hr), (Hy_i _ _ Hyi).
      intros [= <-]. unfold Bernoulli_log_prob. lra. }
  unfold censored_log_density, observed_log_density. rewrite Hl, filter_nil. simpl. lra.
Qed.

Lemma filter_none (P : nat → Prop) `{!∀ i, Decision (P i)} (idx : list nat) :
  Forall (λ i, ¬ P i) idx → filter P idx = [].
Proof.
  induction 1 as [|i idx Hi _ IH]; [done|].
  by rewrite filter_cons, decide_False, IH.
Qed.

(** X7: the second model accepts any label values.  A data point whose
    label is neither 0 nor 1 is masked out of both sample statements and
    adds nothing to the observed log-density; in particular, if no label
    is 0 or 1 the observed log-density is zero. *)
Theorem vectorized_drops_other_labels (a_model b_model : R) (x y label : list R) :
  length y = length x → length label = length x →
  ∃ tr, model_vectorized a_model b_model x y label = inr tr
    ∧ observed_log_density tr = censored_log_density a_model b_model x y label
    ∧ (Forall (λ l, l ≠ 0 ∧ l ≠ 1) label → observed_log_density tr = 0).
Proof.
  intros Hy Hl.
  destruct (model_vectorized_observed a_model b_model x y label Hy Hl) as (tr & Htr & Hobs).
  exists tr. split; [exact Htr|]. split; [exact Hobs|].
  intros Hnone. rewrite Hobs. unfold censored_log_density.
  assert (Hat : ∀ i, (i < length x)%nat → nth i label 0 ≠ 0 ∧ nth i label 0 ≠ 1).
  { intros i Hi. destruct (lookup_lt_is_Some_2 label i ltac:(lia)) as [li Hli].
    rewrite (nth_lookup_Some _ _ 0 _ Hli).
    exact (proj1 (Forall_lookup _ _) Hnone i li Hli). }
  rewrite !filter_none; [simpl; lra|..]; apply Forall_seq; intros i Hi;
    destruct (Hat i ltac:(lia)); done.
Qed.

Lemma vectorized_drops_other_labels_witness :
  ∃ tr, model_vectorized 2 4 [0; 1] [3; 8] [2; 1] = inr tr
    ∧ observed_log_density tr = censored_log_density 2 4 [0; 1] [3; 8] [2; 1]
    ∧ (Forall (λ l, l ≠ 0 ∧ l ≠ 1) [2; 1] → observed_log_density tr = 0).
Proof.
  apply (vectorized_drops_other_labels 2 4 [0; 1] [3; 8] [2; 1]); reflexivity.
Defined.

(** X8: the first model treats every non-zero label as censored: its
    observed log-density is the sum over all data points of the
    exponential log-density for label 0 and, for any other label value l,
    of the Bernoulli log-probability of l under the survival probability. *)
Theorem sequential_censors_nonzero_labels (a_model b_model : R) (x y label : list R) :
  length y = length x → length label = length x →
  ∃ tr, model_sequential a_model b_model x y label = inr tr
    ∧ observed_log_density tr
      = Rsum (map (loop_term a_model b_model x y label) (seq 0 (length x))).
Proof.
  intros Hy Hl.
  destruct (model_loop_spec a_model b_model x y label (seq 0 (length x))
    (sample_latent "b_model" (Normal_log_prob 0 10 b_model)
       (sample_latent "a_model" (Normal_log_prob 0 10 a_model) [])) Hy Hl)
    as (tr & Htr & Hobs).
  { apply Forall_seq. intros; lia. }
  exists tr. split; [exact Htr|].
  rewrite Hobs, !observed_sample_latent.
  unfold observed_log_density at 1. rewrite filter_nil. simpl. lra.
Qed.

Lemma sequential_censors_nonzero_labels_witness :
  ∃ tr, model_sequential 2 4 [0; 1] [3; 8] [2; 1] = inr tr
    ∧ observed_log_density tr
      = Rsum (map (loop_term 2 4 [0; 1] [3; 8] [2; 1]) (seq 0 (length [0; 1]))).
Proof.
  apply (sequential_censors_nonzero_labels 2 4 [0; 1] [3; 8] [2; 1]); reflexivity.
Defined.

(** *** The model on the generated data *)

#[local] Instance Rlt_decision (u v : R) : Decision (u < v) := Rlt_dec u v.

Lemma nth_truncation_label (y : list R) (i : nat) :
  (i < length y)%nat →
  nth i (truncation_label y) 0 = gt_float c (nth i y 0)
  ∧ nth i (y_obs y) 0 = clamp_max c (nth i y 0).
Proof.
  intros Hi. destruct (lookup_lt_is_Some_2 y i Hi) as [v Hv].
  rewrite (nth_lookup_Some _ _ 0 _ Hv). unfold truncation_label, y_obs.
  split; apply nth_lookup_Some; by rewrite list_lookup_fmap, Hv.
Qed.

(** X9: the variational fit calls the second model on the censored data
    (x, y_obs, truncation_label).  There the model returns, and its
    observed log-density is the sum over the data points of the
    exponential log-density at y[i] when y[i] <= 8 and of -8 / link[i]
    when y[i] > 8. *)
Theorem censored_data_log_density (a_model b_model : R) (x y : list R) :
  length y = length x →
  ∃ tr, model_vectorized a_model b_model x (y_obs y) (truncation_label y) = inr tr
    ∧ observed_log_density tr = generated_log_density a_model b_model x y.
Proof.
  intros Hy.
  destruct (model_vectorized_observed a_model b_model x (y_obs y) (truncation_label y))
    as (tr & Htr & Hobs).
  { unfold y_obs. by rewrite length_map. }
  { unfold truncation_label. by rewrite length_map. }
  exists tr. split; [exact Htr|]. rewrite Hobs. symmetry.
  etransitivity.
  { exact (Rsum_split_filter (λ i, c < nth i y 0)
             (λ i, - (rate_at a_model b_model x i * c))
             (λ i, Exponential_log_prob (rate_at a_model b_model x i) (nth i y 0))
             (seq 0 (length x))). }
  unfold censored_log_density. rewrite Rplus_comm. symmetry. f_equal.
  - rewrite (filter_ext_in (λ i, nth i (truncation_label y) 0 = 0)
                           (λ i, ¬ c < nth i y 0)).
    2:{ apply Forall_seq. intros i Hi.
        destruct (nth_truncation_label y i ltac:(lia)) as [-> _].
        destruct (gt_float_cases c (nth i y 0)) as [[? ->]|[? ->]]; split; try done; lra. }
    f_equal. apply map_ext_in. intros i [Hle Hi]%list_elem_of_In%list_elem_of_filter.
    apply elem_of_seq in Hi.
    destruct (nth_truncation_label y i ltac:(lia)) as [_ ->].
    unfold clamp_max. by rewrite Rmin_left by lra.
  - rewrite (filter_ext_in (λ i, nth i (truncation_label y) 0 = 1) (λ i, c < nth i y 0)).
    2:{ apply Forall_seq. intros i Hi.
        destruct (nth_truncation_label y i ltac:(lia)) as [-> _].
        destruct (gt_float_cases c (nth i y 0)) as [[? ->]|[? ->]]; split; try done; lra. }
    f_equal. apply map_ext_in. intros i [Hgt Hi]%list_elem_of_In%list_elem_of_filter.
    apply elem_of_seq in Hi.
    destruct (nth_truncation_label y i ltac:(lia)) as [_ ->].
    unfold clamp_max. rewrite Rmin_right by lra.
    unfold Exponential_cdf.
    replace (1 - (1 - exp (- rate_at a_model b_model x i * c)))
      with (exp (- rate_at a_model b_model x i * c)) by lra.
    rewrite ln_exp. lra.
Qed.

Lemma censored_data_log_density_witness :
  ∃ tr, model_vectorized 2 4 [0; 1] (y_obs [3; 11]) (truncation_label [3; 11]) = inr tr
    ∧ observed_log_density tr = generated_log_density 2 4 [0; 1] [3; 11].
Proof. apply (censored_data_log_density 2 4 [0; 1] [3; 11]). reflexivity. Defined.

End CensoredExtras.

(** * Further properties of the forecasting script *)

Section SolarExtras.
Import Solar.
Local Open Scope R_scope.

(** *** Initial parameter values *)

Lemma sigmoid_logit (p : R) : 0 < p < 1 → sigmoid (logit p) = p.
Proof.
  intros [H0 H1]. unfold sigmoid, logit.
  replace (- (ln p - ln (1 - p))) with (ln (1 - p) + - ln p) by lra.
  rewrite exp_plus, exp_Ropp, !exp_ln by lra. field. lra.
Qed.

Lemma transform_roundtrip (c : constraint) (v : R) :
  match c with
  | real => True
  | positive => 0 < v
  | interval lower upper => lower < v < upper
  end →
  transform_to c (transform_inv c v) = v.
Proof.
  destruct c as [| |lower upper]; cbn [transform_to transform_inv].
  - done.
  - intros Hv. by apply exp_ln.
  - intros [Hl Hu]. rewrite sigmoid_logit.
    + field. lra.
    + split.
      * apply Rdiv_lt_0_compat; lra.
      * apply (Rmult_lt_reg_r (upper - lower)); [lra|].
        unfold Rdiv. rewrite Rmult_assoc, Rinv_l by lra. lra.
Qed.

Lemma value_mkPyroParam_scalar (c : constraint) (v : R) :
  transform_to c (transform_inv c v) = v →
  value (mkPyroParam (Scalar v) c) = Scalar v.
Proof. intros H. unfold value, mkPyroParam. cbn. by rewrite H. Qed.

Lemma value_mkPyroParam_real (t : tensor) : value (mkPyroParam t real) = t.
Proof.
  unfold value, mkPyroParam. cbn [constraint_of unconstrained].
  destruct t as [v|v|m]; cbn [tmap transform_to transform_inv].
  - done.
  - by rewrite map_map, map_id.
  - f_equal. rewrite map_map. rewrite <- (map_id m) at 2.
    apply map_ext. intros r. by rewrite map_map, map_id.
Qed.

Lemma value_initial_scale (k : nat) :
  value (mkPyroParam (tmap (Rmult 0.2) (ones k)) positive) = Vector (replicate k 0.2).
Proof.
  unfold value, mkPyroParam, ones. cbn [constraint_of unconstrained tmap].
  f_equal. rewrite !map_map. induction k as [|k IH]; [done|].
  cbn [replicate map]. rewrite IH. f_equal.
  cbn [transform_to transform_inv]. rewrite exp_ln by lra. lra.
Qed.

(** X10: right after construction every parameter reads as the value it
    was initialised with (the inverse transform applied on construction is
    undone by the transform applied on reading): both noise scales are
    0.2 in every entry, the matrices are 0.3 times the normal draws, and,
    where the attributes exist, stability is 1.95, skewness 0 and the
    degrees of freedom 5. *)
Theorem init_parameter_values (obs_dim : nat) (trans_noise obs_noise : string)
    (state_dim : nat) (randn_trans randn_obs : list (list R)) (self : StableLinearHMM.t) :
  StableLinearHMM.__init__ obs_dim trans_noise obs_noise state_dim randn_trans randn_obs
    = inr self →
  value (StableLinearHMM.obs_noise_scale self) = Vector (replicate obs_dim 0.2)
  ∧ value (StableLinearHMM.trans_noise_scale self) = Vector (replicate state_dim 0.2)
  ∧ value (StableLinearHMM.trans_matrix self) = Matrix (map (map (Rmult 0.3)) randn_trans)
  ∧ value (StableLinearHMM.obs_matrix self) = Matrix (map (map (Rmult 0.3)) randn_obs)
  ∧ (∀ p, StableLinearHMM.trans_stability self = Some p
          ∨ StableLinearHMM.obs_stability self = Some p → value p = Scalar 1.95)
  ∧ (∀ p, StableLinearHMM.trans_skew self = Some p
          ∨ StableLinearHMM.obs_skew self = Some p → value p = Scalar 0)
  ∧ (∀ p, StableLinearHMM.trans_nu self = Some p
          ∨ StableLinearHMM.obs_nu self = Some p → value p = Scalar 5).
Proof.
  intros Hinit.
  destruct (init_flags_valid _ _ _ _ _ _ _ Hinit) as [Ht Ho].
  unfold StableLinearHMM.__init__, py_assert in Hinit.
  rewrite (bool_decide_eq_true_2 _ Ht), (bool_decide_eq_true_2 _ Ho) in Hinit.
  cbn [mbind py_bind mret py_ret] in Hinit. injection Hinit as <-.
  cbn [StableLinearHMM.obs_noise_scale StableLinearHMM.trans_noise_scale
    StableLinearHMM.trans_matrix StableLinearHMM.obs_matrix
    StableLinearHMM.trans_stability StableLinearHMM.trans_skew StableLinearHMM.trans_nu
    StableLinearHMM.obs_stability StableLinearHMM.obs_skew StableLinearHMM.obs_nu].
  assert (Hst : value (mkPyroParam (Scalar 1.95) (interval 1.01 1.99)) = Scalar 1.95).
  { apply value_mkPyroParam_scalar, (transform_roundtrip (interval 1.01 1.99)). lra. }
  assert (Hsk : value (mkPyroParam (Scalar 0.0) (interval (-0.99) 0.99)) = Scalar 0).
  { rewrite (value_mkPyroParam_scalar (interval (-0.99) 0.99) 0.0).
    - f_equal. lra.
    - apply (transform_roundtrip (interval (-0.99) 0.99)). lra. }
  assert (Hnu : value (mkPyroParam (Scalar 5.0) (interval 1.01 30.0)) = Scalar 5).
  { rewrite (value_mkPyroParam_scalar (interval 1.01 30.0) 5.0).
    - f_equal. lra.
    - apply (transform_roundtrip (interval 1.01 30.0)). lra. }
  split; [apply value_initial_scale|]. split; [apply value_initial_scale|].
  split; [apply value_mkPyroParam_real|]. split; [apply value_mkPyroParam_real|].
  split; [|split]; intros p [Hp|Hp]; revert Hp;
    repeat (match goal with |- context [bool_decide ?P] => destruct (bool_decide_reflect P) end);
    intros [= <-]; assumption.
Qed.

Lemma init_parameter_values_witness :
  ∃ self,
    StableLinearHMM.__init__ 2 "skew" "student" 3 [[1; 2]] [[3]] = inr self
    ∧ value (StableLinearHMM.obs_noise_scale self) = Vector (replicate 2 0.2)
    ∧ value (StableLinearHMM.trans_noise_scale self) = Vector (replicate 3 0.2)
    ∧ value (StableLinearHMM.trans_matrix self) = Matrix (map (map (Rmult 0.3)) [[1; 2]])
    ∧ value (StableLinearHMM.obs_matrix self) = Matrix (map (map (Rmult 0.3)) [[3]])
    ∧ (∀ p, StableLinearHMM.trans_stability self = Some p
            ∨ StableLinearHMM.obs_stability self = Some p → value p = Scalar 1.95)
    ∧ (∀ p, StableLinearHMM.trans_skew self = Some p
            ∨ StableLinearHMM.obs_skew self = Some p → value p = Scalar 0)
    ∧ (∀ p, StableLinearHMM.trans_nu self = Some p
            ∨ StableLinearHMM.obs_nu self = Some p → value p = Scalar 5).
Proof.
  eexists. split; [reflexivity|].
  apply (init_parameter_values 2 "skew" "student" 3 [[1; 2]] [[3]]). reflexivity.
Defined.

(** *** Optional attributes *)

Lemma init_attributes obs_dim trans_noise obs_noise state_dim randn_trans randn_obs self :
  StableLinearHMM.__init__ obs_dim trans_noise obs_noise state_dim randn_trans randn_obs
    = inr self →
  attributes_follow_flags self.
Proof.
  intros Hinit.
  destruct (init_flags_valid _ _ _ _ _ _ _ Hinit) as [Ht Ho].
  unfold StableLinearHMM.__init__, py_assert in Hinit.
  rewrite (bool_decide_eq_true_2 _ Ht), (bool_decide_eq_true_2 _ Ho) in Hinit.
  cbn [mbind py_bind mret py_ret] in Hinit. injection Hinit as <-.
  unfold attributes_follow_flags.
  cbn [StableLinearHMM.trans_noise StableLinearHMM.obs_noise
    StableLinearHMM.trans_stability StableLinearHMM.trans_skew StableLinearHMM.trans_nu
    StableLinearHMM.obs_stability StableLinearHMM.obs_skew StableLinearHMM.obs_nu].
  apply flag_cases in Ht. apply flag_cases in Ho.
  destruct Ht as [-> | [-> | [-> | ->]]], Ho as [-> | [-> | [-> | ->]]]; cbn;
    repeat split; intros H;
    first [ discriminate H | by destruct H | by eexists | solve [auto] ].
Qed.

Lemma step_attributes upd self :
  attributes_follow_flags self →
  attributes_follow_flags (StableLinearHMM.optimizer_step upd self).
Proof.
  unfold attributes_follow_flags.
  cbn [StableLinearHMM.optimizer_step StableLinearHMM.trans_noise StableLinearHMM.obs_noise
    StableLinearHMM.trans_stability StableLinearHMM.trans_skew StableLinearHMM.trans_nu
    StableLinearHMM.obs_stability StableLinearHMM.obs_skew StableLinearHMM.obs_nu].
  by rewrite !fmap_is_Some.
Qed.

(** X11: on every instance, freshly constructed or trained, the optional
    attributes exist exactly for the flags that use them: a stability for
    stable and skew, a skewness for skew only, degrees of freedom for
    student only, and none of them for gaussian. *)
Theorem attributes_exist_exactly_for_flags (self : StableLinearHMM.t) :
  StableLinearHMM.reachable self → attributes_follow_flags self.
Proof.
  induction 1 as [? ? ? ? ? ? self Hinit | upd self _ IH].
  - eapply init_attributes, Hinit.
  - by apply step_attributes.
Qed.

Lemma attributes_exist_exactly_for_flags_witness :
  ∃ self,
    StableLinearHMM.__init__ 2 "gaussian" "stable" 3 [] [] = inr self
    ∧ attributes_follow_flags (StableLinearHMM.optimizer_step (λ _, tmap (Rplus 1)) self).
Proof.
  eexists. split; [reflexivity|].
  apply attributes_exist_exactly_for_flags.
  apply StableLinearHMM.reachable_step.
  eapply (StableLinearHMM.reachable_init 2 "gaussian" "stable" 3 [] []). reflexivity.
Defined.

(** *** The model and its noise distributions *)

Lemma zeros_all_zero (k : nat) : all_entries (λ v, v = 0) (zeros k).
Proof. unfold zeros. cbn. apply Forall_forall. by intros v [-> _]%elem_of_replicate. Qed.

(** X12: a Model built from valid flags holds an instance of
    StableLinearHMM with the same flags, and the reparameterizers of its
    config fit the noise distributions of the LinearHMM that get_dist of
    this instance builds (and returns whenever the library accepts the
    constructor calls): no reparameterizer exactly where the noise is
    Normal, StudentTReparam for StudentT noise, StableReparam for skewed
    Stable noise, and SymmetricStableReparam only for Stable noise whose
    skewness is identically zero. *)
Theorem model_reparam_fits_noise (trans_noise obs_noise : string) (state_dim obs_dim : nat)
    (randn_trans randn_obs : list (list R)) (duration : option nat)
    (obs_scale : option tensor) :
  trans_noise ∈ noise_flags → obs_noise ∈ noise_flags →
  ∃ self r h,
    Model.__init__ trans_noise obs_noise state_dim obs_dim randn_trans randn_obs = inr self
    ∧ StableLinearHMM.trans_noise (Model.hmm self) = trans_noise
    ∧ StableLinearHMM.obs_noise (Model.hmm self) = obs_noise
    ∧ Model.config self !! "residual" = Some r
    ∧ reparam_init r = None
    ∧ reparam_matches (reparam_trans r) (transition_dist h)
    ∧ reparam_matches (reparam_obs r) (observation_dist h)
    ∧ ∀ lib, StableLinearHMM.get_dist lib (Model.hmm self) duration obs_scale
             = (_ ← accepts_hmm lib h; mret h).
Proof.
  intros Ht Ho.
  destruct (init_returns obs_dim trans_noise obs_noise state_dim randn_trans randn_obs
    Ht Ho) as [hmm Hhmm].
  pose proof (init_declared _ _ _ _ _ _ _ Hhmm) as Hd.
  assert (StableLinearHMM.trans_noise hmm = trans_noise
          ∧ StableLinearHMM.obs_noise hmm = obs_noise) as [Htn Hon].
  { unfold StableLinearHMM.__init__, py_assert in Hhmm.
    rewrite (bool_decide_eq_true_2 _ Ht), (bool_decide_eq_true_2 _ Ho) in Hhmm.
    cbn [mbind py_bind mret py_ret] in Hhmm. injection Hhmm as <-. done. }
  destruct (get_dist_spec hmm duration obs_scale Hd)
    as (h & _ & Htrans & Hobs & _ & _ & _ & Hget).
  unfold Model.__init__. rewrite Hhmm. cbn [mbind py_bind mret py_ret].
  eexists _, _, h.
  split; [reflexivity|]. cbn [Model.hmm Model.config].
  split; [exact Htn|]. split; [exact Hon|].
  split; [apply lookup_singleton_eq|].
  cbn [reparam_init reparam_trans reparam_obs].
  split; [reflexivity|].
  destruct Htrans as (Hg & Hs & Hst & Hsk). destruct Hobs as (Hg' & Hs' & Hst' & Hsk').
  rewrite Htn in Hg, Hs, Hst, Hsk. rewrite Hon in Hg', Hs', Hst', Hsk'.
  split; [|split; [|exact Hget]].
  - apply flag_cases in Ht. destruct Ht as [-> | [-> | [-> | ->]]]; cbn.
    + by rewrite (Hg eq_refl).
    + destruct (Hst eq_refl) as (st & _ & ->). cbn. right. split; [done|].
      apply zeros_all_zero.
    + destruct (Hs eq_refl) as (nu & _ & ->). done.
    + destruct (Hsk eq_refl) as (st & sk & _ & _ & ->). cbn. by left.
  - apply flag_cases in Ho. destruct Ho as [-> | [-> | [-> | ->]]]; cbn.
    + by rewrite (Hg' eq_refl).
    + destruct (Hst' eq_refl) as (st & _ & ->). cbn. right. split; [done|].
      apply zeros_all_zero.
    + destruct (Hs' eq_refl) as (nu & _ & ->). done.
    + destruct (Hsk' eq_refl) as (st & sk & _ & _ & ->). cbn. by left.
Qed.

Lemma model_reparam_fits_noise_witness :
  ∃ self r h,
    Model.__init__ "stable" "skew" 3 14 [] [] = inr self
    ∧ StableLinearHMM.trans_noise (Model.hmm self) = "stable"
    ∧ StableLinearHMM.obs_noise (Model.hmm self) = "skew"
    ∧ Model.config self !! "residual" = Some r
    ∧ reparam_init r = None
    ∧ reparam_matches (reparam_trans r) (transition_dist h)
    ∧ reparam_matches (reparam_obs r) (observation_dist h)
    ∧ ∀ lib, StableLinearHMM.get_dist lib (Model.hmm self) (Some 48%nat) None
             = (_ ← accepts_hmm lib h; mret h).
Proof.
  apply (model_reparam_fits_noise "stable" "skew" 3 14 [] [] (Some 48%nat) None);
    unfold noise_flags; rewrite !elem_of_cons; auto.
Defined.

(** *** Columns returned by [get_data] *)

Lemma column_standardize (d : list (list R)) (j : nat) :
  rectangular d → (j < ncols d)%nat →
  column j (standardize d)
  = map (λ e, (e - mean (column j d)) / std (column j d)) (column j d).
Proof.
  intros Hd Hj. unfold column at 1 4, standardize. rewrite !map_map.
  apply map_ext_in. intros r Hr%list_elem_of_In.
  pose proof (rectangular_row d r Hd Hr) as Hlen.
  destruct (lookup_lt_is_Some_2 r j ltac:(lia)) as [e He].
  rewrite (nth_lookup_Some r j 0 e He).
  apply nth_lookup_Some. by rewrite list_lookup_imap, He.
Qed.

Lemma Rsum_scale (f : R → R) (k : R) (l : list R) :
  Rsum (map (λ e, f e * k) l) = Rsum (map f l) * k.
Proof.
  induction l as [|e l IH]; [simpl; lra|].
  rewrite !map_cons, !Rsum_cons, IH. lra.
Qed.

Lemma Rsum_mean (l : list R) : l ≠ [] → Rsum l = INR (length l) * mean l.
Proof.
  intros Hl. unfold mean.
  assert (INR (length l) ≠ 0).
  { apply not_0_INR. destruct l; [done | simpl; lia]. }
  field. done.
Qed.

Lemma mean_standardized (l : list R) (s : R) :
  l ≠ [] → mean (map (λ e, (e - mean l) / s) l) = 0.
Proof.
  intros Hl. unfold mean at 1. rewrite length_map.
  rewrite (Rsum_scale (λ e, e - mean l) (/ s)), Rsum_shift, <- Rsum_mean by done.
  unfold Rdiv. ring.
Qed.

Lemma std_nonzero_variance (l : list R) :
  std l ≠ 0 →
  l ≠ [] ∧ 0 < Rsum (map (λ e, (e - mean l) ^ 2) l) / (INR (length l) - 1).
Proof.
  intros Hs. split.
  - intros ->. apply Hs. unfold std. simpl.
    replace (0 / (0 - 1)) with 0 by (unfold Rdiv; ring). apply sqrt_0.
  - destruct (Rlt_le_dec 0 (Rsum (map (λ e, (e - mean l) ^ 2) l) / (INR (length l) - 1)))
      as [Hpos|Hneg]; [done|].
    exfalso. apply Hs. unfold std. by apply sqrt_neg_0.
Qed.

Lemma std_standardized (l : list R) :
  std l ≠ 0 → std (map (λ e, (e - mean l) / std l) l) = 1.
Proof.
  intros Hs. destruct (std_nonzero_variance l Hs) as [Hl Hvar].
  unfold std at 1. rewrite mean_standardized, length_map, map_map by done.
  transitivity (sqrt 1); [|apply sqrt_1]. f_equal.
  rewrite (map_ext _ (λ e, (e - mean l) ^ 2 * (/ std l) ^ 2))
    by (intros e; field; done).
  rewrite (Rsum_scale (λ e, (e - mean l) ^ 2)).
  assert (std l ^ 2 = Rsum (map (λ e, (e - mean l) ^ 2) l) / (INR (length l) - 1)) as Hsq.
  { replace (std l ^ 2) with (std l * std l) by ring.
    unfold std. apply sqrt_sqrt, Rlt_le, Hvar. }
  assert (Rsum (map (λ e, (e - mean l) ^ 2) l) * (/ std l) ^ 2 / (INR (length l) - 1)
          = Rsum (map (λ e, (e - mean l) ^ 2) l) / (INR (length l) - 1) * (/ std l) ^ 2) as ->
    by (unfold Rdiv; ring).
  rewrite <- Hsq. field. done.
Qed.

Lemma get_data_returns (periodic_features : nat → Z → Z → py (list (list R)))
    (a : args) (raw data covariates : list (list R)) :
  rectangular raw →
  get_data periodic_features a raw = inr (data, covariates) →
  data = standardize (slice_to (to_keep a) raw)
  ∧ periodic_features (length data) (24 * 60)%Z 10%Z = inr covariates.
Proof.
  intros Hraw. unfold get_data, py_assert.
  destruct (bool_decide (to_keep a ≤ Z.of_nat (length raw))%Z); [|discriminate].
  cbn [mbind py_bind mret py_ret].
  destruct (periodic_features _ _ _) as [|features] eqn:Hpf; [discriminate|].
  cbn [mbind py_bind mret py_ret]. intros [= <- <-].
  split; [|exact Hpf].
  rewrite centre_then_scale; [done|].
  unfold slice_to. destruct (bool_decide (to_keep a < 0)%Z); by apply rectangular_take.
Qed.

(** X13: when get_data returns, every column whose standard deviation
    over the kept rows is not zero comes back with mean 0 and standard
    deviation 1. *)
Theorem get_data_columns_standardized
    (periodic_features : nat → Z → Z → py (list (list R)))
    (a : args) (raw data covariates : list (list R)) (j : nat) :
  rectangular raw →
  get_data periodic_features a raw = inr (data, covariates) →
  (j < ncols raw)%nat →
  std (column j (slice_to (to_keep a) raw)) ≠ 0 →
  mean (column j data) = 0 ∧ std (column j data) = 1.
Proof.
  intros Hraw Hget Hj Hs.
  destruct (get_data_returns _ _ _ _ _ Hraw Hget) as [-> _].
  set (kept := slice_to (to_keep a) raw) in *.
  assert (Hkept : rectangular kept).
  { unfold kept, slice_to. destruct (bool_decide (to_keep a < 0)%Z);
      by apply rectangular_take. }
  destruct (std_nonzero_variance _ Hs) as [Hne _].
  assert (Hcols : (j < ncols kept)%nat).
  { assert (ncols kept = ncols raw) as ->; [|done].
    assert (∀ k, take k raw ≠ [] → ncols (take k raw) = ncols raw) as Htake.
    { intros [|k]; [done|]. by destruct raw. }
    unfold kept, slice_to in *.
    destruct (bool_decide (to_keep a < 0)%Z); apply Htake; intros Hnil;
      apply Hne; unfold column; by rewrite Hnil. }
  rewrite (column_standardize kept j Hkept Hcols).
  split; [by apply mean_standardized | by apply std_standardized].
Qed.

Lemma get_data_columns_standardized_witness :
  let a := {| trans_noise := "gaussian"; obs_noise := "gaussian"; dataset := "solar";
              data_dir := "./data/"; train_window := 1; test_window := 1;
              num_windows := 1; state_dim := 6; seed := 0 |} in
  let raw := [[1; 10]; [3; 30]; [6; 20]] in
  ∃ data covariates,
    get_data constant_features a raw = inr (data, covariates)
    ∧ mean (column 0 data) = 0 ∧ std (column 0 data) = 1.
Proof.
  intros a raw. eexists _, _. split; [reflexivity|].
  eapply (get_data_columns_standardized constant_features a raw _ _ 0%nat).
  - repeat constructor.
  - reflexivity.
  - simpl. lia.
  - apply Rgt_not_eq, sqrt_lt_R0.
    change (slice_to (to_keep a) raw) with [[1; 10]; [3; 30]].
    unfold mean, column. simpl. lra.
Defined.

(** X14: a negative to_keep never fails the assertion.  If fewer rows
    than the raw data has are to be dropped, get_data drops that many
    rows from the end and standardises the rest; if no row is left, the
    call of periodic_features on zero rows raises. *)
Theorem get_data_negative_drops_tail
    (periodic_features : nat → Z → Z → py (list (list R)))
    (a : args) (raw : list (list R)) :
  features_contract periodic_features →
  rectangular raw → (to_keep a < 0)%Z →
  ((- to_keep a < Z.of_nat (length raw))%Z →
     ∃ data covariates,
       get_data periodic_features a raw = inr (data, covariates)
       ∧ data = standardize (take (length raw - Z.to_nat (- to_keep a)) raw)
       ∧ length data = (length raw - Z.to_nat (- to_keep a))%nat
       ∧ length covariates = length data)
  ∧ ((Z.of_nat (length raw) ≤ - to_keep a)%Z →
     get_data periodic_features a raw = inl RuntimeError).
Proof.
  intros [Hpos Hzero] Hraw Hneg.
  assert (Hget : get_data periodic_features a raw
    = (features ← periodic_features (length raw - Z.to_nat (- to_keep a))%nat
                    (24 * 60)%Z 10%Z;
       mret (standardize (take (length raw - Z.to_nat (- to_keep a)) raw), features))).
  { unfold get_data, py_assert.
    rewrite bool_decide_eq_true_2 by lia. cbn [mbind py_bind mret py_ret].
    unfold slice_to. rewrite bool_decide_eq_true_2 by done.
    replace (Z.to_nat (Z.of_nat (length raw) + to_keep a))
      with (length raw - Z.to_nat (- to_keep a))%nat by lia.
    rewrite length_standardized, length_take.
    rewrite centre_then_scale by (by apply rectangular_take).
    by replace ((length raw - Z.to_nat (- to_keep a)) `min` length raw)%nat
      with (length raw - Z.to_nat (- to_keep a))%nat by lia. }
  rewrite Hget. split.
  - intros Hleft.
    destruct (Hpos (length raw - Z.to_nat (- to_keep a))%nat ltac:(lia))
      as (features & -> & Hrows).
    cbn [mbind py_bind mret py_ret]. eexists _, _. split; [reflexivity|].
    split; [reflexivity|].
    unfold standardize. rewrite length_map, length_take. lia.
  - intros Hnone.
    replace (length raw - Z.to_nat (- to_keep a))%nat with 0%nat by lia.
    by rewrite Hzero.
Qed.

Lemma get_data_negative_drops_tail_witness :
  let a := {| trans_noise := "gaussian"; obs_noise := "gaussian"; dataset := "solar";
              data_dir := "./data/"; train_window := -5; test_window := 1;
              num_windows := 3; state_dim := 6; seed := 0 |} in
  let raw := [[1; 10]; [3; 30]; [6; 20]] in
  ((- to_keep a < Z.of_nat (length raw))%Z →
     ∃ data covariates,
       get_data constant_features a raw = inr (data, covariates)
       ∧ data = standardize (take (length raw - Z.to_nat (- to_keep a)) raw)
       ∧ length data = (length raw - Z.to_nat (- to_keep a))%nat
       ∧ length covariates = length data)
  ∧ ((Z.of_nat (length raw) ≤ - to_keep a)%Z →
     get_data constant_features a raw = inl RuntimeError).
Proof.
  intros a raw. apply (get_data_negative_drops_tail constant_features a raw).
  - apply constant_features_contract.
  - repeat constructor.
  - reflexivity.
Defined.

(** *** Edge cases of the hourly observation scale *)

(** X15: with fewer than 24 covariate rows the hour index is empty, and
    the selected observation scale has no rows at all, whatever the
    parameter holds. *)
Theorem short_covariates_select_nothing (obs_scale_param covariates : list (list R)) :
  (length covariates < 24)%nat →
  Model.hour covariates = [] ∧ Model.model_obs_scale obs_scale_param covariates = inr [].
Proof.
  intros Hlt. unfold Model.model_obs_scale, Model.hour.
  by rewrite Nat.div_small.
Qed.

Lemma short_covariates_select_nothing_witness :
  Model.hour (replicate 23 [1]) = []
  ∧ Model.model_obs_scale (replicate 24 [0.2]) (replicate 23 [1]) = inr [].
Proof.
  apply (short_covariates_select_nothing (replicate 24 [0.2]) (replicate 23 [1])).
  simpl. lia.
Defined.

(** X16: for a Model built by __init__ the slice
    covariates[:, :short_feature_dim] keeps every column, because
    long_feature_dim is always 0. *)
Theorem short_covariates_are_all_covariates (trans_noise obs_noise : string)
    (state_dim obs_dim : nat) (randn_trans randn_obs : list (list R)) (self : Model.t)
    (covariates : list (list R)) :
  Model.__init__ trans_noise obs_noise state_dim obs_dim randn_trans randn_obs = inr self →
  rectangular covariates →
  Model.long_feature_dim self = 0%nat
  ∧ Model.model_short_covariates self covariates = covariates.
Proof.
  intros Hinit Hrect.
  assert (Model.long_feature_dim self = 0%nat) as Hlong.
  { unfold Model.__init__ in Hinit.
    destruct (StableLinearHMM.__init__ obs_dim trans_noise obs_noise state_dim
                randn_trans randn_obs); [discriminate|].
    cbn [mbind py_bind mret py_ret] in Hinit. by injection Hinit as <-. }
  split; [exact Hlong|].
  unfold Model.model_short_covariates. rewrite Hlong.
  transitivity (map (λ r : list R, r) covariates); [|apply map_id].
  apply map_ext_in.
  intros r Hr%list_elem_of_In. rewrite slice_to_nonneg by lia.
  apply take_ge. rewrite (rectangular_row covariates r Hrect Hr). lia.
Qed.

Lemma short_covariates_are_all_covariates_witness :
  ∃ self,
    Model.__init__ "gaussian" "gaussian" 3 14 [] [] = inr self
    ∧ Model.long_feature_dim self = 0%nat
    ∧ Model.model_short_covariates self [[1; 2]; [3; 4]] = [[1; 2]; [3; 4]].
Proof.
  eexists. split; [reflexivity|].
  eapply (short_covariates_are_all_covariates "gaussian" "gaussian" 3 14 [] []);
    [reflexivity | repeat constructor].
Defined.

(** *** Sizes of the validation/test split *)

(** X17: when the split is drawn (n = (num_windows - 1) * test_window + 1
    not negative), index_test and index_val together have n elements and
    index_val has floor(n / 5) of them; so the validation indices are
    empty exactly when n < 5, which includes the default num_windows = 1. *)
Theorem split_sizes {generator : Type}
    (set_rng_seed : Z → generator) (backtest_rng : args → generator → generator)
    (randperm_draw : generator → nat → list nat) (a : args) :
  (∀ g k, randperm_draw g k ≡ₚ seq 0 k) →
  let n := ((num_windows a - 1) * test_window a + 1)%Z in
  (0 ≤ n)%Z →
  ∃ index_test index_val,
    main_split set_rng_seed backtest_rng randperm_draw a = inr (index_test, index_val)
    ∧ (Z.of_nat (length index_test) + Z.of_nat (length index_val) = n)%Z
    ∧ Z.of_nat (length index_val) = (n `div` 5)%Z
    ∧ (index_val = [] ↔ (n < 5)%Z).
Proof.
  intros Hperm n Hn. unfold main_split, randperm. fold n.
  rewrite bool_decide_eq_false_2 by lia. cbn [mbind py_bind mret py_ret].
  pose proof (ceil_080_spec n) as Hceil.
  set (index := randperm_draw (set_rng_seed 0%Z) (Z.to_nat n)).
  assert (Hlen : length index = Z.to_nat n).
  { unfold index. by rewrite Hperm, length_seq. }
  rewrite slice_to_nonneg, slice_from_nonneg by lia.
  eexists _, _. split; [reflexivity|].
  rewrite length_take, length_drop, Hlen.
  assert (Hval : (Z.of_nat (Z.to_nat n - Z.to_nat (ceil_080 n)) = n `div` 5)%Z).
  { apply (Z.div_unique n 5 _ (n - 5 * (n - ceil_080 n))); lia. }
  split; [lia|]. split; [exact Hval|].
  rewrite <- length_zero_iff_nil, length_drop, Hlen.
  pose proof (Z.div_small_iff n 5 ltac:(lia)) as Hsmall. lia.
Qed.

Lemma split_sizes_witness :
  let a := {| trans_noise := "gaussian"; obs_noise := "gaussian"; dataset := "solar";
              data_dir := "./data/"; train_window := 48; test_window := 30;
              num_windows := 1; state_dim := 6; seed := 0 |} in
  let draw := λ (g : Z) (k : nat), rev (seq 0%nat k) in
  let n := 1%Z in
  ∃ index_test index_val,
    main_split (λ s, s) (λ _ g, g) draw a = inr (index_test, index_val)
    ∧ (Z.of_nat (length index_test) + Z.of_nat (length index_val) = n)%Z
    ∧ Z.of_nat (length index_val) = (n `div` 5)%Z
    ∧ (index_val = [] ↔ (n < 5)%Z).
Proof.
  intros a draw n.
  apply (split_sizes (λ s, s) (λ _ g, g) draw a).
  - intros g k. symmetry. apply Permutation_rev.
  - vm_compute. discriminate.
Defined.

(** *** Parameters reported by [main] *)

Lemma report_params_cons (name : string) (value : tensor) (rest : list (string * tensor))
    (results : gmap string reported) :
  report_params ((name, value) :: rest) results
  = report_params rest
      (if decide (numel value = 1%nat) then <[name := Item (item value)]> results
       else if decide (numel value < 10)%nat then <[name := Array value]> results
            else results).
Proof.
  cbn [report_params].
  destruct (decide (numel value = 1%nat)) as [H1|H1];
    [by rewrite bool_decide_eq_true_2 | rewrite bool_decide_eq_false_2 by done].
  destruct (decide (numel value < 10)%nat) as [H10|H10];
    [by rewrite bool_decide_eq_true_2 | by rewrite bool_decide_eq_false_2].
Qed.

Lemma report_params_untouched (store : list (string * tensor))
    (results : gmap string reported) (name : string) :
  (∀ value, (name, value) ∈ store → (10 ≤ numel value)%nat) →
  report_params store results !! name = results !! name.
Proof.
  revert results. induction store as [|[name' value] rest IH]; intros results Hlarge; [done|].
  rewrite report_params_cons, IH.
  2:{ intros v Hv. apply Hlarge. by right. }
  destruct (decide (name' = name)) as [->|Hne].
  - pose proof (Hlarge value ltac:(left)) as Hv.
    rewrite decide_False by lia. by rewrite decide_False by lia.
  - repeat case_decide; by rewrite ?lookup_insert_ne.
Qed.

(** X18: after the loop over the parameter store, a name is a key of the
    results exactly when it was one before or when the store holds a
    parameter of that name with fewer than 10 elements; larger parameters
    are never added. *)
Theorem params_reported_iff_small (store : list (string * tensor))
    (results : gmap string reported) (name : string) :
  is_Some (report_params store results !! name)
  ↔ is_Some (results !! name)
    ∨ ∃ value, (name, value) ∈ store ∧ (numel value < 10)%nat.
Proof.
  revert results. induction store as [|[name' value] rest IH]; intros results.
  - cbn [report_params]. split; [by left|].
    intros [H|(v & Hv & _)]; [done|]. by apply elem_of_nil in Hv.
  - rewrite report_params_cons, IH. setoid_rewrite elem_of_cons.
    destruct (decide (numel value = 1%nat)) as [H1|H1];
      [|destruct (decide (numel value < 10)%nat) as [H10|H10]];
      rewrite ?lookup_insert_is_Some; split.
    + intros [[->|[_ H]]|(v & Hv & Hsmall)]; [right; exists value; split; [by left|lia]
        | by left | right; exists v; auto].
    + intros [H|(v & [[= -> ->]|Hv] & Hsmall)]; [|by left; left|right; eauto].
      destruct (decide (name' = name)); [by left; left | left; right; done].
    + intros [[->|[_ H]]|(v & Hv & Hsmall)]; [right; exists value; split; [by left|lia]
        | by left | right; exists v; auto].
    + intros [H|(v & [[= -> ->]|Hv] & Hsmall)]; [|by left; left|right; eauto].
      destruct (decide (name' = name)); [by left; left | left; right; done].
    + intros [H|(v & Hv & Hsmall)]; [by left | right; exists v; auto].
    + intros [H|(v & [[= -> ->]|Hv] & Hsmall)]; [by left | lia | right; eauto].
Qed.

(** X19: when the names of the store are distinct, a parameter with one
    element is stored as that number, a parameter with zero or with two
    to nine elements is stored as the array, and the entry of any other
    parameter name is left as it was. *)
Theorem params_reported_values (store : list (string * tensor))
    (results : gmap string reported) (name : string) (value : tensor) :
  NoDup store.*1 → (name, value) ∈ store →
  report_params store results !! name
  = if decide (numel value = 1%nat) then Some (Item (item value))
    else if decide (numel value < 10)%nat then Some (Array value)
         else results !! name.
Proof.
  revert results. induction store as [|[name' value'] rest IH]; intros results Hnd Hin.
  { by apply elem_of_nil in Hin. }
  apply NoDup_cons in Hnd as [Hfresh Hnd]. rewrite report_params_cons.
  apply elem_of_cons in Hin as [[= -> ->]|Hin].
  - rewrite report_params_untouched.
    2:{ intros v Hv. exfalso. apply Hfresh. apply list_elem_of_fmap.
        by exists (name', v). }
    repeat case_decide; by rewrite ?lookup_insert_eq.
  - rewrite (IH _ Hnd Hin).
    assert (name' ≠ name) as Hne.
    { intros ->. apply Hfresh. apply list_elem_of_fmap. by exists (name, value). }
    repeat case_decide; by rewrite ?lookup_insert_ne.
Qed.

Lemma params_reported_values_witness :
  report_params [("hmm.trans_stability", Scalar 1.95);
                 ("hmm.trans_matrix", Matrix (replicate 6 (replicate 6 0.3)))]
    ∅ !! "hmm.trans_stability"
  = if decide (numel (Scalar 1.95) = 1%nat) then Some (Item (item (Scalar 1.95)))
    else if decide (numel (Scalar 1.95) < 10)%nat then Some (Array (Scalar 1.95))
         else (∅ : gmap string reported) !! "hmm.trans_stability".
Proof.
  apply (params_reported_values
           [("hmm.trans_stability", Scalar 1.95);
            ("hmm.trans_matrix", Matrix (replicate 6 (replicate 6 0.3)))]
           ∅ "hmm.trans_stability" (Scalar 1.95)).
  - cbn. apply NoDup_cons. split; [|apply NoDup_singleton].
    rewrite list_elem_of_singleton. discriminate.
  - by left.
Defined.

(** X20: in the results of [main] the four aggregates of the evaluation
    loop are still there after the parameters were reported, as numbers,
    provided no parameter with fewer than 10 elements is named like one
    of them. *)
Theorem aggregates_survive_reporting (metrics : list (gmap string R))
    (store : list (string * tensor)) :
  Forall (λ m, is_Some (m !! "mae") ∧ is_Some (m !! "crps")) metrics →
  (∀ name value, name ∈ ["mae"; "mae_std"; "crps"; "crps_std"] →
     (name, value) ∈ store → (10 ≤ numel value)%nat) →
  ∃ mae crps results,
    Forall2 (λ m v, m !! "mae" = Some v) metrics mae
    ∧ Forall2 (λ m v, m !! "crps" = Some v) metrics crps
    ∧ main_results metrics store = inr results
    ∧ results !! "mae" = Some (Item (np_mean mae))
    ∧ results !! "mae_std" = Some (Item (np_std mae))
    ∧ results !! "crps" = Some (Item (np_mean crps))
    ∧ results !! "crps_std" = Some (Item (np_std crps)).
Proof.
  intros Hkeys Hnames.
  destruct (metric_values_spec "mae" metrics) as (mae & Hmae & Hmae_all).
  { eapply Forall_impl; [exact Hkeys|]. by intros m [? _]. }
  destruct (metric_values_spec "crps" metrics) as (crps & Hcrps & Hcrps_all).
  { eapply Forall_impl; [exact Hkeys|]. by intros m [_ ?]. }
  exists mae, crps. eexists.
  split; [exact Hmae_all|]. split; [exact Hcrps_all|].
  unfold main_results, main_evaluation. cbn [evaluation_loop]. rewrite Hmae.
  cbn [mbind py_bind]. rewrite Hcrps. cbn [mbind py_bind mret py_ret app fst].
  split; [reflexivity|].
  change ("mae" +:+ "_std") with "mae_std".
  change ("crps" +:+ "_std") with "crps_std".
  repeat split; (rewrite report_params_untouched;
    [rewrite lookup_fmap, ?lookup_insert_ne by done; by rewrite lookup_insert_eq
    |intros v Hv; eapply Hnames; [|exact Hv]; rewrite !elem_of_cons; auto]).
Qed.

Lemma aggregates_survive_reporting_witness :
  ∃ mae crps results,
    Forall2 (λ m v, m !! "mae" = Some v)
      [({[ "mae" := 1%R; "crps" := 2%R ]} : gmap string R)] mae
    ∧ Forall2 (λ m v, m !! "crps" = Some v)
      [({[ "mae" := 1%R; "crps" := 2%R ]} : gmap string R)] crps
    ∧ main_results [{[ "mae" := 1%R; "crps" := 2%R ]}] [("obs_scale", Scalar 0.2)]
      = inr results
    ∧ results !! "mae" = Some (Item (np_mean mae))
    ∧ results !! "mae_std" = Some (Item (np_std mae))
    ∧ results !! "crps" = Some (Item (np_mean crps))
    ∧ results !! "crps_std" = Some (Item (np_std crps)).
Proof.
  apply (aggregates_survive_reporting [{[ "mae" := 1%R; "crps" := 2%R ]}]
           [("obs_scale", Scalar 0.2)]).
  - apply Forall_cons; split; [|apply Forall_nil_2]. split; eexists; reflexivity.
  - intros name value Hname [[= -> ->]|Hin]%elem_of_cons.
    + exfalso. rewrite !elem_of_cons, elem_of_nil in Hname.
      destruct Hname as [H|[H|[H|[H|[]]]]]; discriminate H.
    + by apply elem_of_nil in Hin.
Defined.

End SolarExtras.
